(** * awss3receiver: the time-partitioned S3 reader and the status notifier

    A shallow embedding of [receiver/awss3receiver]: the reader of
    [s3reader.go] ([newS3Reader], [readAll], [readTelemetryForTime],
    [getObjectPrefixForTime], [retrieveObject], [getTimeKeyPartitionHour],
    [getTimeKeyPartitionMinute]), the capabilities of [s3intf.go], and the
    notifier exercised by [notifications_test.go].

    Go values are modelled as follows.
    - [string] is [String.string]; [[]byte] is [list Byte.byte]; an [error]
      is its message, and the nil error is [None].
    - [time.Time] is the instant in nanoseconds since the Unix epoch, read in
      UTC, as an unbounded [Z]; [time.Duration] is a number of nanoseconds.
      The reader only ever holds instants that [parseTime] produced (years 0
      to 9999), where [Time.Add] is exact.
    - Everything outside the reader (the object store, the context, the
      callback's own state) is a world [W] threaded through every call; each
      call also leaves an [Event] in the trace of the run. *)

From Stdlib Require Import ZArith List String Ascii Bool Lia Arith Sorted.
From Stdlib Require Import DecimalString DecimalFacts DecimalPos DecimalN DecimalZ.
From Equations Require Import Equations.
Import ListNotations.

Local Open Scope string_scope.
Local Open Scope Z_scope.

(* ===================================================================== *)
(** ** Go's [fmt.Sprintf], for the verbs the reader uses *)
(* ===================================================================== *)

Module Fmt.

(** An operand of [Sprintf]. [time.Month] is an integer type, and [%d]
    prints it as an integer. *)
Inductive Arg :=
| ArgString (s : string)
| ArgInt (v : Z).

Fixpoint repeatChar (c : ascii) (n : nat) : string :=
  match n with
  | O => ""
  | S n' => String c (repeatChar c n')
  end.

(** The decimal digits of a natural number, most significant first, "0"
    for zero. *)
Definition digits (n : N) : string :=
  NilEmpty.string_of_uint (N.to_uint n).

(** The integer formatter of package [fmt] in base 10: with the [0] flag
    and a width the precision is the width, one less when a sign is
    printed; the digits
    are left-padded with zeros up to the precision, then the sign is put
    in front, then the result is padded with spaces up to the width. *)
Definition fmtInteger (width : nat) (zero : bool) (v : Z) : string :=
  let negative := v <? 0 in
  let prec := if zero then (if negative then Nat.pred width else width) else O in
  let ds := digits (Z.abs_N v) in
  let body := repeatChar "0" (prec - String.length ds) ++ ds in
  let signed := if negative then String "-" body else body in
  repeatChar " " (width - String.length signed) ++ signed.

Definition digitValue (c : ascii) : option nat :=
  let n := nat_of_ascii c in
  if ((48 <=? n) && (n <=? 57))%nat then Some (n - 48)%nat else None.

(** What [Sprintf] prints for an operand that is missing or of the wrong
    kind; no call of the reader reaches it. *)
Definition badVerb : string := "%!(BADVERB)".

(** [fmt.Sprintf] restricted to the verbs [%s], [%d] and [%0Nd] (one width
    digit); every other character is copied. *)
Fixpoint Sprintf (format : string) (args : list Arg) : string :=
  match format with
  | EmptyString => ""
  | String c rest =>
    if (c =? "%")%char then
      match rest with
      | EmptyString => "%!(NOVERB)"
      | String v rest1 =>
        if (v =? "s")%char then
          match args with
          | ArgString s :: args' => s ++ Sprintf rest1 args'
          | _ :: args' => badVerb ++ Sprintf rest1 args'
          | [] => badVerb ++ Sprintf rest1 []
          end
        else if (v =? "d")%char then
          match args with
          | ArgInt z :: args' => fmtInteger 0 false z ++ Sprintf rest1 args'
          | _ :: args' => badVerb ++ Sprintf rest1 args'
          | [] => badVerb ++ Sprintf rest1 []
          end
        else if (v =? "0")%char then
          match rest1 with
          | String w (String v2 rest3) =>
            match digitValue w, (v2 =? "d")%char, args with
            | Some width, true, ArgInt z :: args' =>
                fmtInteger width true z ++ Sprintf rest3 args'
            | _, _, _ :: args' => badVerb ++ Sprintf rest3 args'
            | _, _, [] => badVerb ++ Sprintf rest3 []
            end
          | _ => badVerb
          end
        else badVerb ++ Sprintf rest1 args
      end
    else String c (Sprintf rest args)
  end.

End Fmt.

(* ===================================================================== *)
(** ** Go's [time.Time], in UTC *)
(* ===================================================================== *)

Module Time.

(** An instant: nanoseconds since 1970-01-01T00:00:00Z. *)
Definition Time := Z.
(** A [time.Duration]: a number of nanoseconds. *)
Definition Duration := Z.

Definition Nanosecond : Duration := 1.
Definition Second : Duration := 1000000000 * Nanosecond.
Definition Minute : Duration := 60 * Second.
Definition Hour : Duration := 60 * Minute.

Definition Before (t u : Time) : bool := t <? u.
Definition Add (t : Time) (d : Duration) : Time := t + d.

(** Seconds since the epoch, rounded towards the past. *)
Definition unixSeconds (t : Time) : Z := t / Second.
Definition unixDays (t : Time) : Z := unixSeconds t / 86400.
Definition secondOfDay (t : Time) : Z := unixSeconds t mod 86400.

(** The proleptic Gregorian date of a day number (days since the epoch),
    computed over 400-year eras that start on a 1 March. *)
Definition civilFromDays (days : Z) : Z * Z * Z :=
  let z := days + 719468 in
  let era := z / 146097 in
  let doe := z - era * 146097 in
  let yoe := (doe - doe / 1460 + doe / 36524 - doe / 146096) / 365 in
  let doy := doe - (365 * yoe + yoe / 4 - yoe / 100) in
  let mp := (5 * doy + 2) / 153 in
  let d := doy - (153 * mp + 2) / 5 + 1 in
  let m := if mp <? 10 then mp + 3 else mp - 9 in
  let y := yoe + era * 400 + (if m <=? 2 then 1 else 0) in
  (y, m, d).

(** [t.Date()]: year, month (1 to 12) and day of the month. *)
Definition Date (t : Time) : Z * Z * Z := civilFromDays (unixDays t).
(** [t.Hour()]. *)
Definition HourOf (t : Time) : Z := secondOfDay t / 3600.
(** [t.Clock()]: hour, minute and second within the day. *)
Definition Clock (t : Time) : Z * Z * Z :=
  let s := secondOfDay t in (s / 3600, (s mod 3600) / 60, s mod 60).

(** The inverse direction, used to write instants down as dates: the day
    number of a proleptic Gregorian date. *)
Definition daysFromCivil (y m d : Z) : Z :=
  let y' := if m <=? 2 then y - 1 else y in
  let era := y' / 400 in
  let yoe := y' - era * 400 in
  let mp := if m <=? 2 then m + 9 else m - 3 in
  let doy := (153 * mp + 2) / 5 + d - 1 in
  let doe := yoe * 365 + yoe / 4 - yoe / 100 + doy in
  era * 146097 + doe - 719468.

(** [time.Date(y, m, d, hh, mm, 0, 0, time.UTC)]. *)
Definition DateUTC (y m d hh mm : Z) : Time :=
  (((daysFromCivil y m d * 24 + hh) * 60 + mm) * 60) * Second.

End Time.

Import Time.

(* ===================================================================== *)
(** ** The reader of [s3reader.go] *)
(* ===================================================================== *)

Module S3Reader.

Definition error := string.
Definition bytes := list Byte.byte.

(** The two partition names of [config.go], as [readAll] and the message
    of [newS3Reader] spell them. *)
Definition S3PartitionHour : string := "hour".
Definition S3PartitionMinute : string := "minute".

Inductive LogLevel := Debug | Info.

(** What a run of the reader does to the outside, in order. A call that
    can fail carries its outcome. *)
Inductive Event :=
| EvLog (level : LogLevel) (msg : string) (fields : list (string * string))
| EvCtxDone (cancelled : bool)
| EvNewListObjectsV2Paginator (bucket prefix : string)
| EvNextPage (outcome : error + list string)
| EvGetObject (bucket key : string) (outcome : option error)
| EvReadBody (outcome : error + bytes)
| EvCloseBody
| EvDataCallback (key : string) (data : bytes) (outcome : option error).

Definition getTimeKeyPartitionHour (t : Time) : string :=
  let '(year, month, day) := Date t in
  let hour := HourOf t in
  Fmt.Sprintf "year=%d/month=%02d/day=%02d/hour=%02d"
    [Fmt.ArgInt year; Fmt.ArgInt month; Fmt.ArgInt day; Fmt.ArgInt hour].

Definition getTimeKeyPartitionMinute (t : Time) : string :=
  let '(year, month, day) := Date t in
  let '(hour, minute, _) := Clock t in
  Fmt.Sprintf "year=%d/month=%02d/day=%02d/hour=%02d/minute=%02d"
    [Fmt.ArgInt year; Fmt.ArgInt month; Fmt.ArgInt day; Fmt.ArgInt hour;
     Fmt.ArgInt minute].

Section Monad.

(** The state of everything the reader talks to. *)
Context {W : Type}.

(** A computation of the reader: from a world to an error or a value,
    the world afterwards, and the events it caused. An error ends the
    computation where it occurs. *)
Definition M (A : Type) : Type := W -> (error + A) * W * list Event.

Definition ret {A} (a : A) : M A := fun w => (inr a, w, []).

Definition bind {A B} (m : M A) (k : A -> M B) : M B :=
  fun w =>
    match m w with
    | (inl e, w1, t1) => (inl e, w1, t1)
    | (inr a, w1, t1) =>
        let '(r, w2, t2) := k a w1 in (r, w2, (t1 ++ t2)%list)
    end.

Definition emit (ev : Event) : M unit := fun w => (inr tt, w, [ev]).

(** A call to the outside that returns [(value, error)]. *)
Definition call {A} (f : W -> (error + A) * W)
    (ev : (error + A) -> Event) : M A :=
  fun w => let '(r, w1) := f w in (r, w1, [ev r]).

(** A call to the outside that returns only an [error]. *)
Definition callErr (f : W -> option error * W)
    (ev : option error -> Event) : M unit :=
  fun w =>
    let '(r, w1) := f w in
    (match r with Some e => inl e | None => inr tt end, w1, [ev r]).

(** The [error] a Go function returns, [None] for nil. *)
Definition returned {A} (r : error + A) : option error :=
  match r with inl e => Some e | inr _ => None end.

End Monad.

Arguments M W A : clear implicits.

Notation "x <- m ;; k" := (bind m (fun x => k))
  (at level 61, m at next level, right associativity).
Notation "m ;;; k" := (bind m (fun _ => k))
  (at level 61, right associativity).

(** The fields of [Config] and [S3DownloaderConfig] the code reads. *)
Record S3DownloaderConfig := {
  Region : string;
  S3Bucket : string;
  S3Prefix : string;
  S3Partition : string;
  FilePrefix : string;
  Endpoint : string;
  S3ForcePathStyle : bool
}.

Record Config := {
  S3Downloader : S3DownloaderConfig;
  StartTime : string;
  EndTime : string
}.

Section Reader.

Context {W : Type}.

(** [io.ReadCloser], the body of a [GetObjectOutput]. *)
Record ReadCloser := {
  bodyReadAll : W -> (error + bytes) * W;
  bodyClose : W -> W
}.

(** [ListObjectsV2Pager]: either [HasMorePages()] is false, or
    [NextPage] can be called, and the pager that remains depends on the
    world the call was made in. A page is the keys of its [Contents]. *)
Inductive ListObjectsV2Pager :=
| NoMorePages
| MorePages (NextPage : W -> (error + list string) * W)
            (rest : W -> ListObjectsV2Pager).

Definition HasMorePages (p : ListObjectsV2Pager) : bool :=
  match p with NoMorePages => false | MorePages _ _ => true end.

(** [ListObjectsAPI.NewListObjectsV2Paginator], by bucket and prefix. *)
Definition ListObjectsAPI := string -> string -> W -> ListObjectsV2Pager * W.
(** [GetObjectAPI.GetObject], by bucket and key. *)
Definition GetObjectAPI := string -> string -> W -> (error + ReadCloser) * W.

Record s3Reader := {
  listObjectsClient : ListObjectsAPI;
  getObjectClient : GetObjectAPI;
  s3Bucket : string;
  s3Prefix : string;
  s3Partition : string;
  filePrefix : string;
  startTime : Time;
  endTime : Time
}.

Definition s3ReaderDataCallback := string -> bytes -> W -> option error * W.

(** [ctx.Done()] is closed in this world. *)
Definition Context := W -> bool.

Definition getObjectPrefixForTime (r : s3Reader) (t : Time)
    (telemetryType : string) : string :=
  let timeKey :=
    if (s3Partition r =? S3PartitionMinute)%string then getTimeKeyPartitionMinute t
    else if (s3Partition r =? S3PartitionHour)%string then getTimeKeyPartitionHour t
    else "" in
  if negb (s3Prefix r =? "")%string then
    Fmt.Sprintf "%s/%s/%s%s_"
      [Fmt.ArgString (s3Prefix r); Fmt.ArgString timeKey;
       Fmt.ArgString (filePrefix r); Fmt.ArgString telemetryType]
  else
    Fmt.Sprintf "%s/%s%s_"
      [Fmt.ArgString timeKey; Fmt.ArgString (filePrefix r);
       Fmt.ArgString telemetryType].

Section Run.

Variable r : s3Reader.
Variable ctx : Context.
Variable telemetryType : string.
Variable dataCallback : s3ReaderDataCallback.

(** [GetObject], then [io.ReadAll] of the body; the deferred [Close]
    runs whether the read failed or not. *)
Definition retrieveObject (key : string) : M W bytes :=
  output <- call (getObjectClient r (s3Bucket r) key)
              (fun o => EvGetObject (s3Bucket r) key (returned o)) ;;
  fun w =>
    let '(contents, w1) := bodyReadAll output w in
    (contents, bodyClose output w1, [EvReadBody contents; EvCloseBody]).

(** [for _, obj := range page.Contents]. *)
Fixpoint readObjects (contents : list string) : M W unit :=
  match contents with
  | [] => ret tt
  | key :: more =>
      data <- retrieveObject key ;;
      emit (EvLog Debug "Retrieved telemetry" [("key", key)]) ;;;
      callErr (dataCallback key data) (EvDataCallback key data) ;;;
      readObjects more
  end.

(** One turn of [for p.HasMorePages()] once [NextPage] has returned
    the page. *)
Definition readPage (prefix : string) (firstPage : bool)
    (page : list string) : M W unit :=
  if firstPage && (List.length page =? 0)%nat
  then emit (EvLog Info "No telemetry found for time" [("prefix", prefix)])
  else readObjects page.

(** [for p.HasMorePages()], with the [firstPage] flag. *)
Fixpoint readPages (prefix : string) (p : ListObjectsV2Pager)
    (firstPage : bool) : M W unit :=
  match p with
  | NoMorePages => ret tt
  | MorePages NextPage rest =>
      fun w =>
        (page <- call NextPage EvNextPage ;;
         readPage prefix firstPage page ;;;
         readPages prefix (rest w) false) w
  end.

Definition readTelemetryForTime (t : Time) : M W unit :=
  let prefix := getObjectPrefixForTime r t telemetryType in
  emit (EvLog Debug "Reading telemetry for time" [("prefix", prefix)]) ;;;
  p <- (fun w =>
          let '(p, w1) := listObjectsClient r (s3Bucket r) prefix w in
          (inr p, w1, [EvNewListObjectsV2Paginator (s3Bucket r) prefix])) ;;
  readPages prefix p true.

(** The [for] loop of [readAll] from the cursor [currentTime] on,
    together with what follows the loop: the [select] on [ctx.Done()]
    returns nil, a failed step returns its error, and when the cursor
    is no longer before [endTime] the loop is left, the end is logged
    and nil is returned. *)
Equations? readAllFrom (timeStep : Duration) (Hstep : 0 < timeStep)
    (currentTime : Time) (w : W) : (error + unit) * W * list Event
    by wf (Z.to_nat (endTime r - currentTime)) lt :=
  readAllFrom timeStep Hstep currentTime w
    with Equations.Prop.Logic.inspect (Before currentTime (endTime r)) := {
    | exist _ false _ => emit (EvLog Info "Finished reading telemetry" []) w
    | exist _ true Hbefore =>
      if ctx w then (inr tt, w, [EvCtxDone true])
      else
        (emit (EvCtxDone false) ;;;
         readTelemetryForTime currentTime ;;;
         (fun w1 => readAllFrom timeStep Hstep (Add currentTime timeStep) w1)) w }.
Proof.
  unfold Before in Hbefore. apply Z.ltb_lt in Hbefore.
  unfold Add. lia.
Qed.

Definition readAll : M W unit :=
  emit (EvLog Info "Start reading telemetry" []) ;;;
  if (s3Partition r =? "hour")%string
  then readAllFrom Hour eq_refl (startTime r)
  else readAllFrom Minute eq_refl (startTime r).

End Run.

Section Construction.

(** [newS3Client] builds the two clients from the SDK configuration it
    loads; [parseTime] is declared in [config.go]. Both are taken as
    given. *)
Variable newS3Client :
  S3DownloaderConfig -> error + (ListObjectsAPI * GetObjectAPI).
Variable parseTime : string -> string -> error + Time.

Definition newS3Reader (cfg : Config) : error + s3Reader :=
  match newS3Client (S3Downloader cfg) with
  | inl err => inl err
  | inr (listObjectsClient, getObjectClient) =>
    match parseTime (StartTime cfg) "starttime" with
    | inl err => inl err
    | inr startTime =>
      match parseTime (EndTime cfg) "endtime" with
      | inl err => inl err
      | inr endTime =>
        if negb (S3Partition (S3Downloader cfg) =? S3PartitionHour)%string
           && negb (S3Partition (S3Downloader cfg) =? S3PartitionMinute)%string
        then inl "s3_partition must be either 'hour' or 'minute'"
        else inr {|
          listObjectsClient := listObjectsClient;
          getObjectClient := getObjectClient;
          s3Bucket := S3Bucket (S3Downloader cfg);
          s3Prefix := S3Prefix (S3Downloader cfg);
          filePrefix := FilePrefix (S3Downloader cfg);
          s3Partition := S3Partition (S3Downloader cfg);
          startTime := startTime;
          endTime := endTime
        |}
      end
    end
  end.

End Construction.

End Reader.

Arguments ReadCloser W : clear implicits.
Arguments ListObjectsV2Pager W : clear implicits.
Arguments ListObjectsAPI W : clear implicits.
Arguments GetObjectAPI W : clear implicits.
Arguments s3Reader W : clear implicits.
Arguments s3ReaderDataCallback W : clear implicits.
Arguments Context W : clear implicits.

(** Modelled from the spec: [parseTime] of [config.go] is not among the
    sources, and the spec says only that malformed time bounds are a
    ConfigError; it fixes no notation for the bounds. This stand-in reads
    the layout "2006-01-02 15:04" (YYYY-MM-DD HH:MM) as an instant in UTC,
    for a date that exists, and rejects every other string. The facts about
    [newS3Reader] are proved for every parser; only the examples use this
    one. *)
Definition parseTimeUTC (timeStr configName : string) : error + Time :=
  let number cs :=
    fold_left (fun acc c =>
                 match acc, Fmt.digitValue c with
                 | Some n, Some d => Some (10 * n + Z.of_nat d)
                 | _, _ => None
                 end) cs (Some 0) in
  let malformed := inl ("unable to parse " ++ configName) in
  match list_ascii_of_string timeStr with
  | [yA; yB; yC; yD; sepA; mA; mB; sepB; dA; dB; sepT; hA; hB; sepC; nA; nB] =>
      if ((sepA =? "-") && (sepB =? "-") && (sepT =? " ") && (sepC =? ":"))%char
      then
        match number [yA; yB; yC; yD], number [mA; mB], number [dA; dB],
              number [hA; hB], number [nA; nB] with
        | Some y, Some m, Some d, Some hh, Some mm =>
            let t := DateUTC y m d hh mm in
            if (hh <? 24) && (mm <? 60)
               && (let '(y', m', d') := Date t in
                   (y' =? y) && (m' =? m) && (d' =? d))
            then inr t else malformed
        | _, _, _, _, _ => malformed
        end
      else malformed
  | _ => malformed
  end.

(* ------------------------------------------------------------------- *)
(** *** Reading a trace *)
(* ------------------------------------------------------------------- *)

(** The error a failed call returned, if the event is one. *)
Definition failure (ev : Event) : option error :=
  match ev with
  | EvNextPage (inl e) => Some e
  | EvGetObject _ _ (Some e) => Some e
  | EvReadBody (inl e) => Some e
  | EvDataCallback _ _ (Some e) => Some e
  | _ => None
  end.

(** The event is the [select] finding [ctx.Done()] closed. *)
Definition cancellation (ev : Event) : bool :=
  match ev with EvCtxDone true => true | _ => false end.

(** Neither a failed call nor a cancellation. *)
Definition quiet (ev : Event) : bool :=
  match failure ev with
  | Some _ => false
  | None => negb (cancellation ev)
  end.

Definition Quiet (evs : list Event) : Prop :=
  Forall (fun ev => quiet ev = true) evs.

(** The trace of a computation that a failed call ended: nothing failed
    before it, and after it only the deferred [Close] of a body whose read
    failed can follow. *)
Definition AbortedWith (e : error) (evs : list Event) : Prop :=
  exists pre ev post,
    evs = (pre ++ ev :: post)%list /\ Quiet pre /\ failure ev = Some e /\
    (post = [] \/ post = [EvCloseBody]).

(** The listing calls of a trace, as (bucket, prefix), in order. *)
Definition listingCalls (evs : list Event) : list (string * string) :=
  flat_map (fun ev => match ev with
                      | EvNewListObjectsV2Paginator b p => [(b, p)]
                      | _ => []
                      end) evs.

(** The keys of the objects fetched in a trace, in order. *)
Definition fetchCalls (evs : list Event) : list string :=
  flat_map (fun ev => match ev with
                      | EvGetObject _ k _ => [k]
                      | _ => []
                      end) evs.

(** The calls of the sink in a trace, as (key, bytes), in order. *)
Definition sinkCalls (evs : list Event) : list (string * bytes) :=
  flat_map (fun ev => match ev with
                      | EvDataCallback k d _ => [(k, d)]
                      | _ => []
                      end) evs.

(** The quotient of [a] by [b] rounded up, for [0 < b]. *)
Definition ceilDiv (a b : Z) : Z := (a + b - 1) / b.

(** The first [n] instants of the walk that starts at [start]. *)
Fixpoint stepTimes (start : Time) (step : Duration) (n : nat) : list Time :=
  match n with
  | O => []
  | S n' => start :: stepTimes (Add start step) step n'
  end.

(** The events of fetching one object and handing it to the sink, when
    nothing fails. *)
Definition objectEvents (bucket : string) (kd : string * bytes) : list Event :=
  let '(key, data) := kd in
  [EvGetObject bucket key None; EvReadBody (inr data); EvCloseBody;
   EvLog Debug "Retrieved telemetry" [("key", key)];
   EvDataCallback key data None].

(** The event is not a listing call. *)
Definition notListing (ev : Event) : bool :=
  match ev with EvNewListObjectsV2Paginator _ _ => false | _ => true end.

(** What can be said of the trace of every computation of the reader that
    does not poll the context: quiet if it succeeds, ended by the failed
    call if it fails; and the same with no listing call in it. *)
Definition Sound {W A} (m : M W A) : Prop :=
  forall w, match m w with
            | (inr _, _, evs) => Quiet evs
            | (inl e, _, evs) => AbortedWith e evs
            end.

Definition NoListing {W A} (m : M W A) : Prop :=
  forall w, Forall (fun ev => notListing ev = true) (snd (m w)).

(** The computation never fails. *)
Definition Succeeds {W A} (m : M W A) : Prop :=
  forall w, exists a w1 evs, m w = (inr a, w1, evs).

(** Every page of the pager can be fetched, whatever the world. *)
Inductive PagerSucceeds {W} : ListObjectsV2Pager W -> Prop :=
| NoMorePagesSucceeds : PagerSucceeds NoMorePages
| MorePagesSucceeds NextPage rest :
    (forall w, exists page w1, NextPage w = (inr page, w1)) ->
    (forall w, PagerSucceeds (rest w)) ->
    PagerSucceeds (MorePages NextPage rest).

(** The store answers every call of the reader and the sink accepts every
    object. *)
Definition NothingFails {W} (r : s3Reader W)
    (dataCallback : s3ReaderDataCallback W) : Prop :=
  (forall bucket prefix w,
      PagerSucceeds (fst (listObjectsClient r bucket prefix w))) /\
  (forall bucket key w,
      exists body w1,
        getObjectClient r bucket key w = (inr body, w1) /\
        forall w2, exists data w3, bodyReadAll body w2 = (inr data, w3)) /\
  (forall key data w, exists w1, dataCallback key data w = (None, w1)).

Definition Finished : Event := EvLog Info "Finished reading telemetry" [].
Definition Started : Event := EvLog Info "Start reading telemetry" [].

(** The three ways a run of [readAll] ends. *)
Inductive Ending (res : error + unit) (evs : list Event) : Prop :=
| EndCompleted pre :
    res = inr tt -> evs = (pre ++ [Finished])%list -> Quiet pre -> Ending res evs
| EndCancelled pre :
    res = inr tt -> evs = (pre ++ [EvCtxDone true])%list -> Quiet pre ->
    Ending res evs
| EndFailed e :
    res = inl e -> AbortedWith e evs -> Ending res evs.

(** What a page that [NextPage] returned leaves in the trace when nothing
    fails: the page, then the notice if it is an empty first page, and
    otherwise each of its objects fetched and handed to the sink, in the
    order of the page, with the bytes that were read for it. *)
Definition pageEvents (bucket prefix : string) (firstPage : bool)
    (page : list string) (datas : list bytes) : list Event :=
  EvNextPage (inr page) ::
  match firstPage, page with
  | true, [] => [EvLog Info "No telemetry found for time" [("prefix", prefix)]]
  | _, _ => flat_map (objectEvents bucket) (combine page datas)
  end.

(** The pages of a step, the first of them first. *)
Fixpoint pagesEvents (bucket prefix : string) (firstPage : bool)
    (pages : list (list string * list bytes)) : list Event :=
  match pages with
  | [] => []
  | (page, datas) :: more =>
      (pageEvents bucket prefix firstPage page datas ++
       pagesEvents bucket prefix false more)%list
  end.

(** A step that succeeds: the poll, the listing call for the prefix, and
    the pages. *)
Definition stepEvents (bucket prefix : string)
    (pages : list (list string * list bytes)) : list Event :=
  EvCtxDone false ::
  EvLog Debug "Reading telemetry for time" [("prefix", prefix)] ::
  EvNewListObjectsV2Paginator bucket prefix ::
  pagesEvents bucket prefix true pages.

(** Every page comes with the bytes of each of its objects. *)
Definition wellRead (pages : list (list string * list bytes)) : Prop :=
  Forall (fun pd => List.length (snd pd) = List.length (fst pd)) pages.

(** The character of a decimal digit. *)
Definition digitChar (d : Z) : ascii := ascii_of_nat (48 + Z.to_nat d).

(** A number below 100 written with exactly two digits. *)
Definition twoDigits (v : Z) : string :=
  String (digitChar (v / 10)) (String (digitChar (v mod 10)) "").

(** The decimal numeral of an integer as the Standard Library writes it:
    a minus sign if negative, then the digits with no padding. *)
Definition decimal (z : Z) : string := NilEmpty.string_of_int (Z.to_int z).

(** The layout of a key prefix as the specification writes it, from its
    parts. *)
Definition keyPrefixLayout (s3Prefix filePrefix telemetryType : string)
    (withMinute : bool) (year month day hour minute : Z) : string :=
  (if (s3Prefix =? "")%string then "" else s3Prefix ++ "/") ++
  ("year=" ++ decimal year ++ "/month=" ++ twoDigits month ++
   "/day=" ++ twoDigits day ++ "/hour=" ++ twoDigits hour ++
   (if withMinute then "/minute=" ++ twoDigits minute else "")) ++
  "/" ++ filePrefix ++ telemetryType ++ "_".

(* ------------------------------------------------------------------- *)
(** *** Facts about traces *)
(* ------------------------------------------------------------------- *)

(** [ceilDiv a b] is the least [q] with [a <= q * b] ... *)
Lemma ceilDiv_least a b :
  0 < b -> a <= ceilDiv a b * b /\ forall q, a <= q * b -> ceilDiv a b <= q.
Proof.
  intros Hb. unfold ceilDiv.
  pose proof (Z.div_mod (a + b - 1) b ltac:(lia)) as Hdm.
  pose proof (Z.mod_pos_bound (a + b - 1) b Hb) as Hm.
  split; [nia|].
  intros q Hq. apply Z.lt_succ_r. apply Z.div_lt_upper_bound; [lia|].
  rewrite Z.mul_succ_r. lia.
Qed.

(** ... so that, for a distance that is not negative, the rounded-up
    quotient is the number of steps of length [b] that just cover [a]. *)
Lemma ceilDiv_ceiling a b :
  0 < b -> 0 <= a ->
  (Z.of_nat (Z.to_nat (ceilDiv a b)) - 1) * b < a <= Z.of_nat (Z.to_nat (ceilDiv a b)) * b.
Proof.
  intros Hb Ha. destruct (ceilDiv_least a b Hb) as [Hup Hleast].
  assert (Hc : 0 <= ceilDiv a b) by (unfold ceilDiv; apply Z.div_pos; lia).
  rewrite Z2Nat.id by trivial. split; [|exact Hup].
  destruct (Z_lt_le_dec ((ceilDiv a b - 1) * b) a) as [Hlt|Hge]; [exact Hlt|].
  specialize (Hleast _ Hge). lia.
Qed.

Lemma stepTimes_length start step n : List.length (stepTimes start step n) = n.
Proof. revert start; induction n; intros; simpl; auto. Qed.

Lemma stepTimes_nth start step n i :
  (i < n)%nat ->
  nth_error (stepTimes start step n) i = Some (start + Z.of_nat i * step).
Proof.
  revert start i; induction n; intros start i Hi; [lia|].
  destruct i; cbn [stepTimes nth_error].
  - f_equal. lia.
  - rewrite IHn by lia. unfold Add. f_equal. rewrite Nat2Z.inj_succ. lia.
Qed.

Lemma stepTimes_lower start step n t :
  0 < step -> In t (stepTimes start step n) -> start <= t.
Proof.
  intros Hs. revert start; induction n; simpl; intros start Hin; [tauto|].
  destruct Hin as [<-|Hin]; [lia|].
  apply IHn in Hin. unfold Add in Hin. lia.
Qed.

Lemma stepTimes_increasing start step n :
  0 < step -> StronglySorted Z.lt (stepTimes start step n).
Proof.
  intros Hs. revert start; induction n; intros start; simpl; constructor.
  - apply IHn.
  - apply Forall_forall. intros t Hin.
    apply stepTimes_lower in Hin; trivial. unfold Add in Hin. lia.
Qed.

Lemma Quiet_app t1 t2 : Quiet t1 -> Quiet t2 -> Quiet (t1 ++ t2).
Proof. apply Forall_app_intro || (intros; apply Forall_app; auto). Qed.

Lemma AbortedWith_app e t1 t2 :
  Quiet t1 -> AbortedWith e t2 -> AbortedWith e (t1 ++ t2).
Proof.
  intros Hq (pre & ev & post & -> & Hpre & Hev & Hpost).
  exists (t1 ++ pre)%list, ev, post. rewrite <- app_assoc.
  repeat split; auto using Quiet_app.
Qed.

Lemma failure_not_quiet ev e : failure ev = Some e -> quiet ev = false.
Proof. unfold quiet. now intros ->. Qed.

(** A trace has at most one place where an event that is not quiet has
    only quiet events on both sides. *)
Lemma stop_unique pre ev post pre' ev' post' :
  Quiet pre -> Quiet post -> quiet ev' = false ->
  (pre ++ ev :: post = pre' ++ ev' :: post')%list ->
  pre' = pre /\ ev' = ev /\ post' = post.
Proof.
  intros Hpre Hpost Hev'. revert pre' Hpre.
  induction pre as [|x pre IH]; intros pre' Hpre Heq.
  - destruct pre' as [|y pre']; simpl in Heq.
    + now inversion Heq.
    + inversion Heq; subst. exfalso.
      assert (Hin : In ev' (pre' ++ ev' :: post')) by (apply in_elt).
      unfold Quiet in Hpost. rewrite Forall_forall in Hpost.
      specialize (Hpost _ Hin). congruence.
  - inversion Hpre; subst.
    destruct pre' as [|y pre']; simpl in Heq; inversion Heq; subst.
    + congruence.
    + destruct (IH pre') as (-> & -> & ->); auto.
Qed.

Lemma Quiet_no_stop pre ev post :
  Quiet (pre ++ ev :: post) -> quiet ev = true.
Proof.
  unfold Quiet. rewrite Forall_forall. intros H. apply H, in_elt.
Qed.

Lemma listingCalls_app t1 t2 :
  listingCalls (t1 ++ t2) = (listingCalls t1 ++ listingCalls t2)%list.
Proof. apply flat_map_app. Qed.

Lemma listingCalls_none evs :
  Forall (fun ev => notListing ev = true) evs -> listingCalls evs = [].
Proof.
  induction 1 as [|ev evs Hev _ IH]; [reflexivity|].
  unfold listingCalls in *. simpl. rewrite IH.
  destruct ev; simpl in *; congruence.
Qed.

Lemma Ending_app res t1 t2 : Quiet t1 -> Ending res t2 -> Ending res (t1 ++ t2).
Proof.
  intros Hq [pre Hr -> Hp | pre Hr -> Hp | e Hr Ha].
  - apply EndCompleted with (pre := (t1 ++ pre)%list);
      auto using Quiet_app, app_assoc.
  - apply EndCancelled with (pre := (t1 ++ pre)%list);
      auto using Quiet_app, app_assoc.
  - apply EndFailed with (e := e); auto using AbortedWith_app.
Qed.

Section MonadFacts.

Context {W : Type}.

Lemma Sound_ret {A} (a : A) : Sound (W := W) (ret a).
Proof. intros w. constructor. Qed.

Lemma Sound_emit ev : quiet ev = true -> Sound (W := W) (emit ev).
Proof. intros H w. repeat constructor; trivial. Qed.

Lemma Sound_bind {A B} (m : M W A) (k : A -> M W B) :
  Sound m -> (forall a, Sound (k a)) -> Sound (bind m k).
Proof.
  intros Hm Hk w. unfold bind. specialize (Hm w).
  destruct (m w) as [[[e|a] w1] t1]; trivial.
  specialize (Hk a w1). destruct (k a w1) as [[[e|b] w2] t2].
  - now apply AbortedWith_app.
  - now apply Quiet_app.
Qed.

Lemma Sound_call {A} (f : W -> (error + A) * W) ev :
  (forall o, failure (ev o) = returned o) ->
  (forall o, cancellation (ev o) = false) ->
  Sound (call f ev).
Proof.
  intros Hf Hc w. unfold call. destruct (f w) as [[e|a] w1].
  - exists [], (ev (inl e)), []. rewrite Hf. repeat split; auto. constructor.
  - repeat constructor. unfold quiet. now rewrite Hf, Hc.
Qed.

Lemma Sound_callErr (f : W -> option error * W) ev :
  (forall o, failure (ev o) = o) ->
  (forall o, cancellation (ev o) = false) ->
  Sound (callErr f ev).
Proof.
  intros Hf Hc w. unfold callErr. destruct (f w) as [[e|] w1].
  - exists [], (ev (Some e)), []. rewrite Hf. repeat split; auto. constructor.
  - repeat constructor. unfold quiet. now rewrite Hf, Hc.
Qed.

Lemma NoListing_ret {A} (a : A) : NoListing (W := W) (ret a).
Proof. intros w. constructor. Qed.

Lemma NoListing_emit ev : notListing ev = true -> NoListing (W := W) (emit ev).
Proof. intros H w. repeat constructor; trivial. Qed.

Lemma NoListing_bind {A B} (m : M W A) (k : A -> M W B) :
  NoListing m -> (forall a, NoListing (k a)) -> NoListing (bind m k).
Proof.
  intros Hm Hk w. unfold bind. specialize (Hm w).
  destruct (m w) as [[[e|a] w1] t1]; trivial.
  specialize (Hk a w1). destruct (k a w1) as [[r2 w2] t2].
  simpl in *. apply Forall_app; auto.
Qed.

Lemma NoListing_call {A} (f : W -> (error + A) * W) ev :
  (forall o, notListing (ev o) = true) -> NoListing (call f ev).
Proof.
  intros H w. unfold call. destruct (f w) as [o w1]. repeat constructor. apply H.
Qed.

Lemma NoListing_callErr (f : W -> option error * W) ev :
  (forall o, notListing (ev o) = true) -> NoListing (callErr f ev).
Proof.
  intros H w. unfold callErr. destruct (f w) as [o w1].
  repeat constructor. apply H.
Qed.

End MonadFacts.

(* ------------------------------------------------------------------- *)
(** *** Facts about formatting and dates *)
(* ------------------------------------------------------------------- *)

Example sprintf_hour :
  Fmt.Sprintf "year=%d/month=%02d/day=%02d/hour=%02d"
    [Fmt.ArgInt 2021; Fmt.ArgInt 1; Fmt.ArgInt 1; Fmt.ArgInt 0]
  = "year=2021/month=01/day=01/hour=00".
Proof. reflexivity. Qed.

Example date_2021 : Date (DateUTC 2021 1 1 0 0) = (2021, 1, 1).
Proof. reflexivity. Qed.

Example date_leap : Date (DateUTC 2024 2 29 23 59) = (2024, 2, 29)
  /\ Clock (DateUTC 2024 2 29 23 59) = (23, 59, 0).
Proof. split; reflexivity. Qed.

Lemma fmtInteger_two_digits v :
  0 <= v <= 99 -> Fmt.fmtInteger 2 true v = twoDigits v.
Proof.
  intros Hv.
  assert (Hall : forallb (fun n => (Fmt.fmtInteger 2 true (Z.of_nat n)
                                     =? twoDigits (Z.of_nat n))%string)
                         (seq 0 100) = true) by (vm_compute; reflexivity).
  rewrite forallb_forall in Hall.
  specialize (Hall (Z.to_nat v)). rewrite Z2Nat.id in Hall by lia.
  apply String.eqb_eq, Hall, in_seq. lia.
Qed.

Lemma fmtInteger_decimal v : Fmt.fmtInteger 0 false v = decimal v.
Proof. now destruct v. Qed.

Lemma string_of_uint_leading d rest :
  NilEmpty.string_of_uint d = String "0" rest -> exists d', d = Decimal.D0 d'.
Proof. destruct d; simpl; try discriminate. intros _. now exists d. Qed.

Lemma to_uint_no_leading_zero p d' : Pos.to_uint p <> Decimal.D0 d'.
Proof.
  intros H.
  assert (Hn : Decimal.unorm (Pos.to_uint p) = Pos.to_uint p).
  { rewrite <- (DecimalN.Unsigned.to_of (Pos.to_uint p)).
    change (N.of_uint (Pos.to_uint p)) with (N.of_uint (N.to_uint (Npos p))).
    now rewrite DecimalN.Unsigned.of_to. }
  rewrite H, DecimalFacts.unorm_D0 in Hn.
  destruct d' as [| | | | | | | | | |]; try discriminate Hn;
    try (apply (DecimalPos.Unsigned.to_uint_nonzero p); exact H).
  assert (Hd : Decimal.D0 d' <> Decimal.Nil) by discriminate.
  pose proof (DecimalFacts.nb_digits_unorm (Decimal.D0 d') Hd) as Hle.
  rewrite Hn in Hle. simpl in Hle. lia.
Qed.

(** The numeral of a non-zero integer does not start with a zero, and the
    numeral of every integer reads back as that integer. *)
Lemma decimal_unpadded z :
  (z <> 0 -> forall rest, decimal z <> String "0" rest /\
                          decimal z <> String "-" (String "0" rest)) /\
  option_map Z.of_int (NilEmpty.int_of_string (decimal z)) = Some z.
Proof.
  split.
  - intros Hz rest. unfold decimal. destruct z as [|p|p]; [congruence| |]; simpl.
    + split; intros H.
      * apply string_of_uint_leading in H. destruct H as [d' H].
        now apply to_uint_no_leading_zero in H.
      * destruct (Pos.to_uint p); discriminate.
    + split; intros H; [discriminate|]. injection H as H.
      apply string_of_uint_leading in H. destruct H as [d' H].
      now apply to_uint_no_leading_zero in H.
  - unfold decimal. rewrite NilEmpty.isi. simpl. f_equal.
    apply DecimalZ.of_to.
Qed.

Lemma Date_range t :
  let '(_, month, day) := Date t in 1 <= month <= 12 /\ 1 <= day <= 31.
Proof.
  unfold Date, civilFromDays.
  set (z := unixDays t + 719468).
  set (doe := z - z / 146097 * 146097).
  set (yoe := (doe - doe / 1460 + doe / 36524 - doe / 146096) / 365).
  set (doy := doe - (365 * yoe + yoe / 4 - yoe / 100)).
  set (mp := (5 * doy + 2) / 153).
  assert (Hdoe : 0 <= doe < 146097)
    by (subst doe; Z.div_mod_to_equations; lia).
  assert (Hdoy : 0 <= doy <= 365)
    by (subst doy yoe; clearbody doe; Z.div_mod_to_equations; lia).
  assert (Hmp : 0 <= mp <= 11 /\ 1 <= doy - (153 * mp + 2) / 5 + 1 <= 31)
    by (subst mp; clearbody doy; Z.div_mod_to_equations; lia).
  destruct (mp <? 10) eqn:Hlt; [apply Z.ltb_lt in Hlt | apply Z.ltb_ge in Hlt]; lia.
Qed.

Lemma Clock_range t :
  let '(hour, minute, second) := Clock t in
  0 <= hour <= 23 /\ 0 <= minute <= 59 /\ 0 <= second <= 59.
Proof.
  unfold Clock, secondOfDay. Z.div_mod_to_equations. lia.
Qed.

Lemma HourOf_Clock t : HourOf t = fst (fst (Clock t)).
Proof. reflexivity. Qed.

Ltac sprintf_simpl :=
  cbn -[Fmt.fmtInteger Fmt.digitValue];
  change (Fmt.digitValue "2") with (Some 2%nat);
  cbn -[Fmt.fmtInteger].

Lemma getTimeKeyPartitionHour_layout t year month day :
  Date t = (year, month, day) ->
  getTimeKeyPartitionHour t =
  "year=" ++ decimal year ++ "/month=" ++ twoDigits month ++
  "/day=" ++ twoDigits day ++ "/hour=" ++ twoDigits (HourOf t).
Proof.
  intros Hd. pose proof (Date_range t) as Hr. pose proof (Clock_range t) as Hc.
  unfold getTimeKeyPartitionHour. rewrite Hd in *.
  rewrite HourOf_Clock. destruct (Clock t) as [[hour minute] second].
  sprintf_simpl.
  rewrite fmtInteger_decimal, !fmtInteger_two_digits by lia.
  reflexivity.
Qed.

Lemma getTimeKeyPartitionMinute_layout t year month day hour minute second :
  Date t = (year, month, day) -> Clock t = (hour, minute, second) ->
  getTimeKeyPartitionMinute t =
  "year=" ++ decimal year ++ "/month=" ++ twoDigits month ++
  "/day=" ++ twoDigits day ++ "/hour=" ++ twoDigits hour ++
  "/minute=" ++ twoDigits minute.
Proof.
  intros Hd Hk. pose proof (Date_range t) as Hr. pose proof (Clock_range t) as Hc.
  unfold getTimeKeyPartitionMinute. rewrite Hd, Hk in *.
  sprintf_simpl.
  rewrite fmtInteger_decimal, !fmtInteger_two_digits by lia.
  reflexivity.
Qed.

Lemma string_app_assoc (a b c : string) : a ++ b ++ c = (a ++ b) ++ c.
Proof. induction a as [|x a IH]; simpl; [reflexivity | now rewrite IH]. Qed.

Lemma Sprintf_with_prefix a b c d :
  Fmt.Sprintf "%s/%s/%s%s_"
    [Fmt.ArgString a; Fmt.ArgString b; Fmt.ArgString c; Fmt.ArgString d]
  = a ++ "/" ++ b ++ "/" ++ c ++ d ++ "_".
Proof. reflexivity. Qed.

Lemma Sprintf_without_prefix b c d :
  Fmt.Sprintf "%s/%s%s_" [Fmt.ArgString b; Fmt.ArgString c; Fmt.ArgString d]
  = b ++ "/" ++ c ++ d ++ "_".
Proof. reflexivity. Qed.

(** C2. The key prefix is a function of the instant, of the reader's
    [s3Partition], [s3Prefix] and [filePrefix], and of the telemetry type
    alone (two readers that agree on the three fields give the same string,
    whatever their clients, bucket and bounds), and for a reader of
    granularity "hour" or "minute" it is laid out as
    [<s3Prefix>/]year=Y/month=MM/day=DD/hour=HH[/minute=mm]/<filePrefix><telemetryType>_:
    month, day, hour and minute are written with exactly two digits (their
    values lie in 1-12, 1-31, 0-23, 0-59), the year is its plain decimal
    numeral, the minute part is there exactly for "minute", and the leading
    [<s3Prefix>/] exactly when [s3Prefix] is not empty. *)
Theorem getObjectPrefixForTime_layout {W W'} (r : s3Reader W) (r' : s3Reader W')
    t telemetryType year month day hour minute second :
  s3Partition r = S3PartitionHour \/ s3Partition r = S3PartitionMinute ->
  Date t = (year, month, day) -> Clock t = (hour, minute, second) ->
  getObjectPrefixForTime r t telemetryType =
    keyPrefixLayout (s3Prefix r) (filePrefix r) telemetryType
      (s3Partition r =? S3PartitionMinute)%string year month day hour minute /\
  (1 <= month <= 12 /\ 1 <= day <= 31 /\ 0 <= hour <= 23 /\ 0 <= minute <= 59) /\
  ((year <> 0 -> forall rest, decimal year <> String "0" rest) /\
   option_map Z.of_int (NilEmpty.int_of_string (decimal year)) = Some year) /\
  (s3Prefix r' = s3Prefix r -> filePrefix r' = filePrefix r ->
   s3Partition r' = s3Partition r ->
   getObjectPrefixForTime r' t telemetryType =
   getObjectPrefixForTime r t telemetryType).
Proof.
  intros Hgran Hd Hk.
  pose proof (Date_range t) as Hr. pose proof (Clock_range t) as Hc.
  rewrite Hd in Hr. rewrite Hk in Hc.
  split; [|split; [lia|split]].
  - unfold getObjectPrefixForTime, keyPrefixLayout.
    rewrite Sprintf_with_prefix, Sprintf_without_prefix.
    assert (Hkey :
      (if (s3Partition r =? S3PartitionMinute)%string
       then getTimeKeyPartitionMinute t
       else if (s3Partition r =? S3PartitionHour)%string
            then getTimeKeyPartitionHour t else "") =
      "year=" ++ decimal year ++ "/month=" ++ twoDigits month ++
      "/day=" ++ twoDigits day ++ "/hour=" ++ twoDigits hour ++
      (if (s3Partition r =? S3PartitionMinute)%string
       then "/minute=" ++ twoDigits minute else "")).
    { destruct Hgran as [-> | ->]; cbn [String.eqb Ascii.eqb Bool.eqb
                                        S3PartitionHour S3PartitionMinute].
      - rewrite (getTimeKeyPartitionHour_layout t year month day Hd).
        rewrite HourOf_Clock, Hk. reflexivity.
      - exact (getTimeKeyPartitionMinute_layout t _ _ _ _ _ _ Hd Hk). }
    rewrite Hkey. destruct (s3Prefix r =? "")%string; [reflexivity|].
    cbn [negb]. rewrite <- (string_app_assoc (s3Prefix r) "/"). reflexivity.
  - split.
    + intros Hy rest. now apply decimal_unpadded.
    + apply decimal_unpadded.
  - intros Hp Hf Hs. unfold getObjectPrefixForTime. now rewrite Hp, Hf, Hs.
Qed.

Section ReaderFacts.

Context {W : Type}.
Variable r : s3Reader W.
Variable ctx : Context W.
Variable telemetryType : string.
Variable dataCallback : s3ReaderDataCallback W.

Create HintDb reader.
Local Hint Resolve Sound_ret Sound_emit Sound_bind Sound_call Sound_callErr
  NoListing_ret NoListing_emit NoListing_bind NoListing_call
  NoListing_callErr : reader.

Lemma Sound_retrieveObject key : Sound (retrieveObject r key).
Proof.
  unfold retrieveObject. apply Sound_bind.
  - apply Sound_call; intros [e|o]; reflexivity.
  - intros output w. destruct (bodyReadAll output w) as [[e|data] w1].
    + exists [], (EvReadBody (inl e)), [EvCloseBody].
      repeat split; auto. constructor.
    + repeat constructor.
Qed.

Lemma NoListing_retrieveObject key : NoListing (retrieveObject r key).
Proof.
  unfold retrieveObject. apply NoListing_bind.
  - now apply NoListing_call.
  - intros output w. destruct (bodyReadAll output w) as [o w1].
    repeat constructor.
Qed.

Lemma Sound_readObjects contents : Sound (readObjects r dataCallback contents).
Proof.
  induction contents as [|key more IH]; simpl; auto with reader.
  apply Sound_bind; [apply Sound_retrieveObject|]. intros data.
  apply Sound_bind; [now apply Sound_emit|]. intros _.
  apply Sound_bind; [|now intros _].
  apply Sound_callErr; now intros [e|].
Qed.

Lemma NoListing_readObjects contents :
  NoListing (readObjects r dataCallback contents).
Proof.
  induction contents as [|key more IH]; simpl; auto with reader.
  apply NoListing_bind; [apply NoListing_retrieveObject|]. intros data.
  apply NoListing_bind; [now apply NoListing_emit|]. intros _.
  apply NoListing_bind; [|now intros _].
  now apply NoListing_callErr.
Qed.

Lemma Sound_readPage prefix firstPage page :
  Sound (readPage r dataCallback prefix firstPage page).
Proof.
  unfold readPage. destruct (firstPage && _).
  - now apply Sound_emit.
  - apply Sound_readObjects.
Qed.

Lemma NoListing_readPage prefix firstPage page :
  NoListing (readPage r dataCallback prefix firstPage page).
Proof.
  unfold readPage. destruct (firstPage && _).
  - now apply NoListing_emit.
  - apply NoListing_readObjects.
Qed.

Lemma Sound_readPages prefix p :
  forall firstPage, Sound (readPages r dataCallback prefix p firstPage).
Proof.
  induction p as [|NextPage rest IH]; intros firstPage; simpl.
  - apply Sound_ret.
  - intros w.
    apply (Sound_bind (call NextPage EvNextPage)
             (fun page => readPage r dataCallback prefix firstPage page ;;;
                          readPages r dataCallback prefix (rest w) false)).
    + apply Sound_call; now intros [e|o].
    + intros page. apply Sound_bind; [apply Sound_readPage|]. intros _. apply IH.
Qed.

Lemma NoListing_readPages prefix p :
  forall firstPage, NoListing (readPages r dataCallback prefix p firstPage).
Proof.
  induction p as [|NextPage rest IH]; intros firstPage; simpl.
  - apply NoListing_ret.
  - intros w.
    apply (NoListing_bind (call NextPage EvNextPage)
             (fun page => readPage r dataCallback prefix firstPage page ;;;
                          readPages r dataCallback prefix (rest w) false)).
    + now apply NoListing_call.
    + intros page. apply NoListing_bind; [apply NoListing_readPage|].
      intros _. apply IH.
Qed.

Lemma Sound_readTelemetryForTime t :
  Sound (readTelemetryForTime r telemetryType dataCallback t).
Proof.
  unfold readTelemetryForTime.
  apply Sound_bind; [now apply Sound_emit|]. intros _.
  apply Sound_bind; [|intros p; apply Sound_readPages].
  intros w. destruct (listObjectsClient r _ _ w) as [p w1]. repeat constructor.
Qed.

(** A step makes one listing call, for the prefix of its instant,
    whatever happens next. *)
Lemma listingCalls_readTelemetryForTime t w :
  listingCalls (snd (readTelemetryForTime r telemetryType dataCallback t w)) =
  [(s3Bucket r, getObjectPrefixForTime r t telemetryType)].
Proof.
  unfold readTelemetryForTime, bind, emit.
  destruct (listObjectsClient r _ _ w) as [p w1].
  pose proof (NoListing_readPages (getObjectPrefixForTime r t telemetryType)
                p true w1) as Hp.
  destruct (readPages _ _ _ _ _ w1) as [[res w2] t2]. simpl in *.
  apply listingCalls_none in Hp. unfold listingCalls in *. simpl.
  now rewrite Hp.
Qed.

Lemma readAllFrom_before timeStep Hstep currentTime w :
  Before currentTime (endTime r) = true ->
  readAllFrom r ctx telemetryType dataCallback timeStep Hstep currentTime w =
  if ctx w then (inr tt, w, [EvCtxDone true])
  else
    (emit (EvCtxDone false) ;;;
     readTelemetryForTime r telemetryType dataCallback currentTime ;;;
     (fun w1 => readAllFrom r ctx telemetryType dataCallback timeStep Hstep
                  (Add currentTime timeStep) w1)) w.
Proof.
  intros Hb.
  funelim (readAllFrom r ctx telemetryType dataCallback timeStep Hstep
             currentTime w).
  - reflexivity.
  - congruence.
Qed.

Lemma readAllFrom_reached timeStep Hstep currentTime w :
  Before currentTime (endTime r) = false ->
  readAllFrom r ctx telemetryType dataCallback timeStep Hstep currentTime w =
  (inr tt, w, [Finished]).
Proof.
  intros Hb.
  funelim (readAllFrom r ctx telemetryType dataCallback timeStep Hstep
             currentTime w).
  - congruence.
  - reflexivity.
Qed.

(** What one turn of the loop adds in front of the rest of the run, when
    the context is not cancelled and the step succeeds. *)
Lemma readAllFrom_turn timeStep Hstep currentTime w :
  Before currentTime (endTime r) = true -> ctx w = false ->
  readAllFrom r ctx telemetryType dataCallback timeStep Hstep currentTime w =
  match readTelemetryForTime r telemetryType dataCallback currentTime w with
  | (inl e, w1, t1) => (inl e, w1, EvCtxDone false :: t1)
  | (inr _, w1, t1) =>
      let '(res, w2, t2) :=
        readAllFrom r ctx telemetryType dataCallback timeStep Hstep
          (Add currentTime timeStep) w1 in
      (res, w2, EvCtxDone false :: (t1 ++ t2)%list)
  end.
Proof.
  intros Hb Hc. rewrite readAllFrom_before by trivial. rewrite Hc.
  unfold bind, emit.
  destruct (readTelemetryForTime _ _ _ _ w) as [[[e|[]] w1] t1]; trivial.
  now destruct (readAllFrom _ _ _ _ _ _ _ w1) as [[res w2] t2].
Qed.

(** The rule of the loop: a property of the run from every cursor
    follows from the four ways a turn can go. *)
Lemma readAllFrom_rule timeStep Hstep
    (P : Time -> W -> (error + unit) * W * list Event -> Prop) :
  (forall t w, Before t (endTime r) = false -> P t w (inr tt, w, [Finished])) ->
  (forall t w, Before t (endTime r) = true -> ctx w = true ->
               P t w (inr tt, w, [EvCtxDone true])) ->
  (forall t w e w1 t1,
      Before t (endTime r) = true -> ctx w = false ->
      readTelemetryForTime r telemetryType dataCallback t w = (inl e, w1, t1) ->
      P t w (inl e, w1, EvCtxDone false :: t1)) ->
  (forall t w u w1 t1 res w2 t2,
      Before t (endTime r) = true -> ctx w = false ->
      readTelemetryForTime r telemetryType dataCallback t w = (inr u, w1, t1) ->
      readAllFrom r ctx telemetryType dataCallback timeStep Hstep
        (Add t timeStep) w1 = (res, w2, t2) ->
      P (Add t timeStep) w1 (res, w2, t2) ->
      P t w (res, w2, EvCtxDone false :: (t1 ++ t2)%list)) ->
  forall t w,
    P t w (readAllFrom r ctx telemetryType dataCallback timeStep Hstep t w).
Proof.
  intros Hreached Hcancel Hfail Hturn t.
  remember (Z.to_nat (endTime r - t)) as n eqn:Hn. revert t Hn.
  induction n as [n IH] using lt_wf_ind. intros t Hn w.
  destruct (Before t (endTime r)) eqn:Hb.
  - destruct (ctx w) eqn:Hc.
    + rewrite readAllFrom_before, Hc by trivial. now apply Hcancel.
    + rewrite readAllFrom_turn by trivial.
      destruct (readTelemetryForTime _ _ _ _ w) as [[[e|u] w1] t1] eqn:Hstep1.
      * now apply Hfail.
      * destruct (readAllFrom _ _ _ _ _ _ _ w1) as [[res w2] t2] eqn:Hrest.
        apply Hturn with (u := u) (w1 := w1); trivial.
        rewrite <- Hrest.
        apply (IH (Z.to_nat (endTime r - Add t timeStep))); trivial.
        unfold Before in Hb. apply Z.ltb_lt in Hb. unfold Add. lia.
  - rewrite readAllFrom_reached by trivial. now apply Hreached.
Qed.

Lemma readAllFrom_ending timeStep Hstep currentTime w :
  let '(res, _, evs) :=
    readAllFrom r ctx telemetryType dataCallback timeStep Hstep currentTime w in
  Ending res evs.
Proof.
  revert currentTime w.
  apply (readAllFrom_rule timeStep Hstep
           (fun _ _ out => let '(res, _, evs) := out in Ending res evs)).
  - intros. apply EndCompleted with (pre := []); trivial. constructor.
  - intros. apply EndCancelled with (pre := []); trivial. constructor.
  - intros t w e w1 t1 _ _ Hs. apply EndFailed with (e := e); trivial.
    apply (AbortedWith_app e [EvCtxDone false]); [repeat constructor|].
    pose proof (Sound_readTelemetryForTime t w) as H. now rewrite Hs in H.
  - intros t w u w1 t1 res w2 t2 _ _ Hs _ IH.
    apply (Ending_app res (EvCtxDone false :: t1)); trivial.
    constructor; trivial.
    pose proof (Sound_readTelemetryForTime t w) as H. now rewrite Hs in H.
Qed.

Lemma readAll_ending w :
  let '(res, _, evs) := readAll r ctx telemetryType dataCallback w in
  Ending res evs.
Proof.
  unfold readAll, bind, emit.
  destruct (s3Partition r =? "hour")%string.
  - pose proof (readAllFrom_ending Hour eq_refl (startTime r) w) as H.
    destruct (readAllFrom _ _ _ _ _ _ _ w) as [[res w2] t2].
    apply (Ending_app res [Started]); trivial. repeat constructor.
  - pose proof (readAllFrom_ending Minute eq_refl (startTime r) w) as H.
    destruct (readAllFrom _ _ _ _ _ _ _ w) as [[res w2] t2].
    apply (Ending_app res [Started]); trivial. repeat constructor.
Qed.

Lemma Succeeds_bind {A B} (m : M W A) (k : A -> M W B) :
  Succeeds m -> (forall a, Succeeds (k a)) -> Succeeds (bind m k).
Proof.
  intros Hm Hk w. unfold bind.
  destruct (Hm w) as (a & w1 & t1 & ->).
  destruct (Hk a w1) as (b & w2 & t2 & ->). now exists b, w2, (t1 ++ t2)%list.
Qed.

Lemma Succeeds_emit ev : Succeeds (W := W) (emit ev).
Proof. intros w. now exists tt, w, [ev]. Qed.

Section NothingFails.

Hypothesis Hstore : NothingFails r dataCallback.

Lemma Succeeds_retrieveObject key : Succeeds (retrieveObject r key).
Proof.
  destruct Hstore as (_ & Hget & _). intros w.
  unfold retrieveObject, bind, call.
  destruct (Hget (s3Bucket r) key w) as (body & w1 & -> & Hread).
  destruct (Hread w1) as (data & w2 & ->). now eexists _, _, _.
Qed.

Lemma Succeeds_readObjects contents : Succeeds (readObjects r dataCallback contents).
Proof.
  induction contents as [|key more IH]; simpl.
  - intros w. now exists tt, w, [].
  - apply Succeeds_bind; [apply Succeeds_retrieveObject|]. intros data.
    apply Succeeds_bind; [apply Succeeds_emit|]. intros _.
    apply Succeeds_bind; [|now intros _].
    destruct Hstore as (_ & _ & Hsink). intros w. unfold callErr.
    destruct (Hsink key data w) as (w1 & ->). now eexists _, _, _.
Qed.

Lemma Succeeds_readPages prefix p :
  PagerSucceeds p ->
  forall firstPage, Succeeds (readPages r dataCallback prefix p firstPage).
Proof.
  induction 1 as [|NextPage rest Hnext _ IH]; intros firstPage w; simpl.
  - now exists tt, w, [].
  - apply (Succeeds_bind (call NextPage EvNextPage)
             (fun page => readPage r dataCallback prefix firstPage page ;;;
                          readPages r dataCallback prefix (rest w) false)).
    + intros w0. unfold call. destruct (Hnext w0) as (page & w1 & ->).
      now eexists _, _, _.
    + intros page. apply Succeeds_bind; [|intros _; apply IH].
      unfold readPage. destruct (firstPage && _).
      * apply Succeeds_emit.
      * apply Succeeds_readObjects.
Qed.

Lemma Succeeds_readTelemetryForTime t :
  Succeeds (readTelemetryForTime r telemetryType dataCallback t).
Proof.
  unfold readTelemetryForTime.
  apply Succeeds_bind; [apply Succeeds_emit|]. intros _.
  intros w. unfold bind.
  destruct Hstore as (Hlist & _ & _).
  specialize (Hlist (s3Bucket r) (getObjectPrefixForTime r t telemetryType) w).
  destruct (listObjectsClient r _ _ w) as [p w1]. simpl in Hlist.
  destruct (Succeeds_readPages (getObjectPrefixForTime r t telemetryType) p
              Hlist true w1) as (u & w2 & t2 & ->).
  now eexists _, _, _.
Qed.

(** The runs that C1 speaks of exist: when the context is never cancelled
    and nothing fails, no event of the run is a cancellation or a failed
    call. *)
Lemma readAll_undisturbed w :
  (forall w0, ctx w0 = false) ->
  Quiet (snd (readAll r ctx telemetryType dataCallback w)).
Proof.
  intros Hctx.
  assert (Hloop : forall timeStep Hstep t w0,
             Quiet (snd (readAllFrom r ctx telemetryType dataCallback timeStep
                           Hstep t w0))).
  { intros timeStep Hstep.
    apply (readAllFrom_rule timeStep Hstep (fun _ _ out => Quiet (snd out))).
    - intros. repeat constructor.
    - intros t w0 _ Hc. rewrite Hctx in Hc. discriminate.
    - intros t w0 e w1 t1 _ _ Hs.
      destruct (Succeeds_readTelemetryForTime t w0) as (u & w2 & t2 & Hok).
      congruence.
    - intros t w0 u w1 t1 res w2 t2 _ _ Hs _ IH. simpl in *.
      constructor; [reflexivity|]. apply Quiet_app; trivial.
      pose proof (Sound_readTelemetryForTime t w0) as Hq. now rewrite Hs in Hq. }
  unfold readAll, bind, emit.
  destruct (s3Partition r =? "hour")%string.
  - specialize (Hloop Hour eq_refl (startTime r) w).
    destruct (readAllFrom _ _ _ _ _ _ _ w) as [[res w2] t2].
    constructor; [reflexivity | exact Hloop].
  - specialize (Hloop Minute eq_refl (startTime r) w).
    destruct (readAllFrom _ _ _ _ _ _ _ w) as [[res w2] t2].
    constructor; [reflexivity | exact Hloop].
Qed.

End NothingFails.

Lemma ceilDiv_nonpos a b : 0 < b -> a <= 0 -> Z.to_nat (ceilDiv a b) = O.
Proof.
  intros Hb Ha. unfold ceilDiv.
  assert ((a + b - 1) / b < 1) by (apply Z.div_lt_upper_bound; lia). lia.
Qed.

Lemma ceilDiv_pos a b :
  0 < b -> 0 < a ->
  Z.to_nat (ceilDiv a b) = S (Z.to_nat (ceilDiv (a - b) b)).
Proof.
  intros Hb Ha. unfold ceilDiv.
  replace (a + b - 1) with ((a - b + b - 1) + 1 * b) by lia.
  rewrite Z.div_add by lia.
  assert (0 <= (a - b + b - 1) / b) by (apply Z.div_pos; lia). lia.
Qed.

(** The listing calls of an undisturbed run of the loop are those of the
    walk from the cursor to [endTime]. *)
Lemma readAllFrom_listing timeStep Hstep currentTime w :
  let '(res, _, evs) :=
    readAllFrom r ctx telemetryType dataCallback timeStep Hstep currentTime w in
  Quiet evs ->
  res = inr tt /\
  listingCalls evs =
    map (fun t => (s3Bucket r, getObjectPrefixForTime r t telemetryType))
        (stepTimes currentTime timeStep
           (Z.to_nat (ceilDiv (endTime r - currentTime) timeStep))) /\
  exists pre, evs = (pre ++ [Finished])%list.
Proof.
  revert currentTime w.
  apply (readAllFrom_rule timeStep Hstep
    (fun t _ out => let '(res, _, evs) := out in
       Quiet evs ->
       res = inr tt /\
       listingCalls evs =
         map (fun t => (s3Bucket r, getObjectPrefixForTime r t telemetryType))
             (stepTimes t timeStep
                (Z.to_nat (ceilDiv (endTime r - t) timeStep))) /\
       exists pre, evs = (pre ++ [Finished])%list)).
  - intros t w Hb _. unfold Before in Hb. apply Z.ltb_ge in Hb.
    rewrite ceilDiv_nonpos by lia. repeat split. now exists [].
  - intros t w _ _ Hq. inversion Hq; subst. discriminate.
  - intros t w e w1 t1 _ _ Hs Hq. exfalso.
    pose proof (Sound_readTelemetryForTime t w) as H. rewrite Hs in H.
    destruct H as (pre & ev & post & -> & _ & Hev & _).
    inversion Hq as [|? ? _ Hq']; subst.
    apply Quiet_no_stop in Hq'. apply failure_not_quiet in Hev. congruence.
  - intros t w u w1 t1 res w2 t2 Hb _ Hs _ IH Hq.
    inversion Hq as [|? ? _ Hq']; subst.
    apply Forall_app in Hq'. destruct Hq' as [_ Hq2].
    destruct (IH Hq2) as (-> & Hl & pre & ->). split; [reflexivity|].
    unfold Before in Hb. apply Z.ltb_lt in Hb.
    rewrite ceilDiv_pos by lia. cbn [stepTimes map].
    replace (endTime r - t - timeStep) with (endTime r - Add t timeStep)
      by (unfold Add; lia).
    rewrite <- Hl. split.
    + change (EvCtxDone false :: t1 ++ pre ++ [Finished])%list
        with ([EvCtxDone false] ++ t1 ++ pre ++ [Finished])%list.
      rewrite !listingCalls_app.
      pose proof (listingCalls_readTelemetryForTime t w) as H1.
      rewrite Hs in H1. simpl in H1. rewrite H1. reflexivity.
    + exists (EvCtxDone false :: t1 ++ pre)%list.
      simpl. now rewrite app_assoc.
Qed.


(** C3. Before a step, when [ctx.Done()] is closed, the loop returns nil
    at once, leaving the world as it is and doing nothing besides the
    poll; and in every run of [readAll], a poll that finds the context
    cancelled is the last event of the trace and the run returns nil, so
    no listing call is made at or after it. *)
Theorem readAll_cancellation :
  (forall timeStep Hstep currentTime w,
      Before currentTime (endTime r) = true -> ctx w = true ->
      readAllFrom r ctx telemetryType dataCallback timeStep Hstep currentTime w
      = (inr tt, w, [EvCtxDone true])) /\
  (forall w res w' evs pre post,
      readAll r ctx telemetryType dataCallback w = (res, w', evs) ->
      evs = (pre ++ EvCtxDone true :: post)%list ->
      res = inr tt /\ post = [] /\
      listingCalls (EvCtxDone true :: post) = []).
Proof.
  split.
  - intros timeStep Hstep t w Hb Hc. now rewrite readAllFrom_before, Hc.
  - intros w res w' evs pre post Hrun Hevs.
    pose proof (readAll_ending w) as He. rewrite Hrun in He.
    assert (post = [] /\ res = inr tt) as [-> ->].
    { destruct He as [pre0 Hr Hev Hq | pre0 Hr Hev Hq | e Hr Ha].
      - exfalso. assert (Hall : Quiet evs).
        { rewrite Hev. apply Quiet_app; trivial. repeat constructor. }
        rewrite Hevs in Hall. apply Quiet_no_stop in Hall. discriminate.
      - rewrite Hevs in Hev.
        destruct (stop_unique pre0 (EvCtxDone true) [] pre (EvCtxDone true) post)
          as (_ & _ & ->); auto. constructor.
      - exfalso. destruct Ha as (pre0 & ev & post0 & Hev & Hq & Hf & Hpost).
        rewrite Hevs in Hev.
        destruct (stop_unique pre0 ev post0 pre (EvCtxDone true) post)
          as (_ & <- & _); auto; try discriminate.
        destruct Hpost as [-> | ->]; repeat constructor. }
    repeat split.
Qed.


(** C10. When [startTime] is not before [endTime], [readAll] returns nil
    having logged its start and its end and nothing else: it makes no
    listing call and never calls the sink, and leaves the world as it
    is. *)
Theorem readAll_degenerate_range w :
  ~ (startTime r < endTime r) ->
  readAll r ctx telemetryType dataCallback w = (inr tt, w, [Started; Finished]) /\
  returned (fst (fst (readAll r ctx telemetryType dataCallback w))) = None /\
  listingCalls (snd (readAll r ctx telemetryType dataCallback w)) = [] /\
  sinkCalls (snd (readAll r ctx telemetryType dataCallback w)) = [].
Proof.
  intros Hdeg.
  assert (Hb : Before (startTime r) (endTime r) = false)
    by (unfold Before; apply Z.ltb_ge; lia).
  assert (Hrun : readAll r ctx telemetryType dataCallback w
                 = (inr tt, w, [Started; Finished])).
  { unfold readAll, bind, emit.
    destruct (s3Partition r =? "hour")%string;
      now rewrite readAllFrom_reached. }
  rewrite Hrun. repeat split.
Qed.

Lemma retrieveObject_success key w data w1 t1 :
  retrieveObject r key w = (inr data, w1, t1) ->
  t1 = [EvGetObject (s3Bucket r) key None; EvReadBody (inr data); EvCloseBody].
Proof.
  unfold retrieveObject, bind, call.
  destruct (getObjectClient r _ key w) as [[e|output] w0]; [discriminate|].
  destruct (bodyReadAll output w0) as [[e|data0] w2]; [discriminate|].
  intros H. inversion H; subst. reflexivity.
Qed.

Lemma readObjects_success contents :
  forall w u w' evs,
    readObjects r dataCallback contents w = (inr u, w', evs) ->
    exists datas,
      List.length datas = List.length contents /\
      evs = flat_map (objectEvents (s3Bucket r)) (combine contents datas).
Proof.
  induction contents as [|key more IH]; intros w u w' evs Hrun.
  - inversion Hrun; subst. now exists [].
  - cbn [readObjects] in Hrun. unfold bind at 1 in Hrun.
    destruct (retrieveObject r key w) as [[[e|data] w1] t1] eqn:Hget;
      [discriminate|].
    apply retrieveObject_success in Hget. subst t1.
    unfold bind, emit, callErr in Hrun.
    destruct (dataCallback key data w1) as [[e|] w2]; [discriminate|].
    destruct (readObjects r dataCallback more w2) as [[res w3] t3] eqn:Hmore.
    inversion Hrun; subst.
    destruct (IH _ _ _ _ Hmore) as (datas & Hlen & ->).
    exists (data :: datas). split; [simpl; now rewrite Hlen|reflexivity].
Qed.

Lemma fetchCalls_objectEvents contents :
  forall datas,
    List.length datas = List.length contents ->
    fetchCalls (flat_map (objectEvents (s3Bucket r)) (combine contents datas))
    = contents.
Proof.
  induction contents as [|key more IH]; intros [|d datas] Hlen;
    try discriminate; trivial.
  simpl in Hlen. injection Hlen as Hlen. specialize (IH _ Hlen).
  unfold fetchCalls in *. simpl. now rewrite IH.
Qed.

Lemma sinkCalls_objectEvents contents datas :
  sinkCalls (flat_map (objectEvents (s3Bucket r)) (combine contents datas))
  = combine contents datas.
Proof.
  revert datas. induction contents as [|key more IH]; intros [|d datas]; trivial.
  specialize (IH datas). unfold sinkCalls in *. simpl. now rewrite IH.
Qed.

Lemma fetchCalls_app t1 t2 :
  fetchCalls (t1 ++ t2) = (fetchCalls t1 ++ fetchCalls t2)%list.
Proof. apply flat_map_app. Qed.

Lemma sinkCalls_app t1 t2 :
  sinkCalls (t1 ++ t2) = (sinkCalls t1 ++ sinkCalls t2)%list.
Proof. apply flat_map_app. Qed.

(** The pages of a pager that was read to its end without a failure. *)
Lemma readPages_success prefix p :
  forall firstPage w u w' evs,
    readPages r dataCallback prefix p firstPage w = (inr u, w', evs) ->
    exists pages,
      wellRead pages /\
      evs = pagesEvents (s3Bucket r) prefix firstPage pages.
Proof.
  induction p as [|NextPage rest IH]; intros firstPage w u w' evs Hrun.
  - inversion Hrun; subst. exists []. split; [constructor | reflexivity].
  - cbn [readPages] in Hrun. unfold bind at 1, call in Hrun.
    destruct (NextPage w) as [[e|page] w1]; [discriminate|].
    unfold bind in Hrun.
    destruct (readPage r dataCallback prefix firstPage page w1)
      as [[[e|u1] w2] t1] eqn:Hpage; [discriminate|].
    destruct (readPages r dataCallback prefix (rest w) false w2)
      as [[res w3] t3] eqn:Hrest.
    inversion Hrun; subst.
    destruct (IH w false w2 u w' t3 Hrest) as (pages & Hwell & ->).
    assert (Hthis : exists datas,
               List.length datas = List.length page /\
               (EvNextPage (inr page) :: t1) =
               pageEvents (s3Bucket r) prefix firstPage page datas).
    { unfold readPage in Hpage. unfold pageEvents.
      destruct firstPage; [destruct page as [|key more]|].
      - cbn in Hpage. inversion Hpage; subst. now exists [].
      - cbn [andb List.length Nat.eqb] in Hpage.
        destruct (readObjects_success _ _ _ _ _ Hpage) as (datas & Hlen & ->).
        now exists datas.
      - cbn [andb] in Hpage.
        destruct (readObjects_success _ _ _ _ _ Hpage) as (datas & Hlen & ->).
        exists datas. split; [exact Hlen|]. now destruct page. }
    destruct Hthis as (datas & Hlen & Hthis).
    exists ((page, datas) :: pages). split.
    + constructor; [exact Hlen | exact Hwell].
    + cbn [pagesEvents]. rewrite <- Hthis. reflexivity.
Qed.

Lemma readTelemetryForTime_success t w u w' evs :
  readTelemetryForTime r telemetryType dataCallback t w = (inr u, w', evs) ->
  exists pages,
    wellRead pages /\
    EvCtxDone false :: evs =
    stepEvents (s3Bucket r) (getObjectPrefixForTime r t telemetryType) pages.
Proof.
  unfold readTelemetryForTime, bind, emit. intros Hrun.
  destruct (listObjectsClient r _ _ w) as [p w0].
  destruct (readPages r dataCallback _ p true w0) as [[res w1] t1] eqn:Hpages.
  inversion Hrun; subst.
  destruct (readPages_success _ _ _ _ _ _ _ Hpages) as (pages & Hwell & ->).
  now exists pages.
Qed.

(** What the sink and the store see of the steps of a run. *)
Lemma fetchCalls_pagesEvents bucket prefix pages :
  wellRead pages ->
  forall firstPage,
    fetchCalls (pagesEvents bucket prefix firstPage pages) =
    flat_map fst pages.
Proof.
  induction 1 as [|[page datas] more Hlen _ IH]; intros firstPage;
    [reflexivity|].
  cbn [pagesEvents flat_map fst snd] in *. rewrite fetchCalls_app, IH.
  f_equal. unfold pageEvents.
  destruct firstPage, page as [|key keys]; trivial;
    change (fetchCalls (EvNextPage ?o :: ?t)) with (fetchCalls t);
    unfold fetchCalls.
  all: revert Hlen; generalize (key :: keys) as page; clear;
    intros page; revert datas;
    induction page as [|k page IH]; intros [|d datas] Hlen;
    try discriminate; trivial;
    cbn; f_equal; apply IH; now injection Hlen.
Qed.

Lemma sinkCalls_pagesEvents bucket prefix pages :
  forall firstPage,
    sinkCalls (pagesEvents bucket prefix firstPage pages) =
    flat_map (fun pd => combine (fst pd) (snd pd)) pages.
Proof.
  induction pages as [|[page datas] more IH]; intros firstPage;
    [reflexivity|].
  cbn [pagesEvents flat_map fst snd]. rewrite sinkCalls_app, IH.
  f_equal. unfold pageEvents.
  destruct firstPage, page as [|key keys]; trivial;
    change (sinkCalls (EvNextPage ?o :: ?t)) with (sinkCalls t);
    unfold sinkCalls.
  all: generalize (key :: keys) as page; clear;
    intros page; revert datas;
    induction page as [|k page IH]; intros [|d datas]; trivial;
    cbn; f_equal; apply IH.
Qed.

(** The steps of a run of the loop that returned nil. *)
Lemma readAllFrom_steps timeStep Hstep t w :
  let '(res, _, evs) :=
    readAllFrom r ctx telemetryType dataCallback timeStep Hstep t w in
  res = inr tt ->
  exists steps ending,
    Forall (fun step => wellRead (snd step)) steps /\
    evs = (flat_map (fun step =>
                       stepEvents (s3Bucket r)
                         (getObjectPrefixForTime r (fst step) telemetryType)
                         (snd step)) steps ++ ending)%list /\
    (ending = [Finished] \/ ending = [EvCtxDone true]).
Proof.
  revert t w.
  apply (readAllFrom_rule timeStep Hstep
    (fun _ _ out => let '(res, _, evs) := out in
       res = inr tt ->
       exists steps ending,
         Forall (fun step => wellRead (snd step)) steps /\
         evs = (flat_map (fun step =>
                            stepEvents (s3Bucket r)
                              (getObjectPrefixForTime r (fst step) telemetryType)
                              (snd step)) steps ++ ending)%list /\
         (ending = [Finished] \/ ending = [EvCtxDone true]))).
  - intros t w _ _. exists [], [Finished]. split; [constructor|]. auto.
  - intros t w _ _ _. exists [], [EvCtxDone true]. split; [constructor|]. auto.
  - intros; discriminate.
  - intros t w u w1 t1 res w2 t2 _ _ Hs _ IH Hres.
    destruct (IH Hres) as (steps & ending & Hwell & -> & Hend).
    destruct (readTelemetryForTime_success _ _ _ _ _ Hs) as (pages & Hp & Hev).
    exists ((t, pages) :: steps), ending. split; [|split; [|exact Hend]].
    + constructor; [exact Hp | exact Hwell].
    + cbn [flat_map fst snd]. rewrite <- Hev, <- app_assoc. reflexivity.
Qed.


End ReaderFacts.

(** C6, as the code has it. [newS3Reader] fails when the clients cannot be
    built, when a bound does not parse, or when the granularity is neither
    "hour" nor "minute", with the error of the step that failed; it does not
    compare the two bounds. Whenever the clients are built, both bounds
    parse and the granularity is valid, it returns a reader that holds the
    two parsed instants, in whatever order they are; every reader it
    returns has a valid granularity and the parsed instants as bounds; and
    whenever one of the four steps fails, no reader is returned. *)
Theorem newS3Reader_checks {W}
    (newS3Client : S3DownloaderConfig -> error + (ListObjectsAPI W * GetObjectAPI W))
    (parseTime : string -> string -> error + Time) (cfg : Config) :
  (forall lister getter s e,
      newS3Client (S3Downloader cfg) = inr (lister, getter) ->
      parseTime (StartTime cfg) "starttime" = inr s ->
      parseTime (EndTime cfg) "endtime" = inr e ->
      S3Partition (S3Downloader cfg) = S3PartitionHour \/
      S3Partition (S3Downloader cfg) = S3PartitionMinute ->
      newS3Reader newS3Client parseTime cfg =
      inr {| listObjectsClient := lister;
             getObjectClient := getter;
             s3Bucket := S3Bucket (S3Downloader cfg);
             s3Prefix := S3Prefix (S3Downloader cfg);
             s3Partition := S3Partition (S3Downloader cfg);
             filePrefix := FilePrefix (S3Downloader cfg);
             startTime := s;
             endTime := e |}) /\
  (forall r,
      newS3Reader newS3Client parseTime cfg = inr r ->
      (s3Partition r = S3PartitionHour \/ s3Partition r = S3PartitionMinute) /\
      parseTime (StartTime cfg) "starttime" = inr (startTime r) /\
      parseTime (EndTime cfg) "endtime" = inr (endTime r)) /\
  (forall err,
      newS3Reader newS3Client parseTime cfg = inl err ->
      newS3Client (S3Downloader cfg) = inl err \/
      parseTime (StartTime cfg) "starttime" = inl err \/
      parseTime (EndTime cfg) "endtime" = inl err \/
      (S3Partition (S3Downloader cfg) <> S3PartitionHour /\
       S3Partition (S3Downloader cfg) <> S3PartitionMinute /\
       err = "s3_partition must be either 'hour' or 'minute'")) /\
  ((exists err, newS3Client (S3Downloader cfg) = inl err) \/
   (exists err, parseTime (StartTime cfg) "starttime" = inl err) \/
   (exists err, parseTime (EndTime cfg) "endtime" = inl err) \/
   (S3Partition (S3Downloader cfg) <> S3PartitionHour /\
    S3Partition (S3Downloader cfg) <> S3PartitionMinute) ->
   exists err, newS3Reader newS3Client parseTime cfg = inl err).
Proof.
  unfold newS3Reader.
  destruct (newS3Client (S3Downloader cfg)) as [e0|[l g]].
  { split; [|split; [|split]]; try (intros; discriminate).
    - intros err [= ->]. now left.
    - intros _. now exists e0. }
  destruct (parseTime (StartTime cfg) "starttime") as [e1|s].
  { split; [|split; [|split]]; try (intros; discriminate).
    - intros err [= ->]. right. now left.
    - intros _. now exists e1. }
  destruct (parseTime (EndTime cfg) "endtime") as [e2|e].
  { split; [|split; [|split]]; try (intros; discriminate).
    - intros err [= ->]. right. right. now left.
    - intros _. now exists e2. }
  destruct (negb (S3Partition (S3Downloader cfg) =? S3PartitionHour)%string
            && negb (S3Partition (S3Downloader cfg) =? S3PartitionMinute)%string)
    eqn:Hcheck.
  - apply andb_prop in Hcheck.
    rewrite !negb_true_iff, !String.eqb_neq in Hcheck.
    split; [|split; [|split]].
    + intros lister getter s' e' _ _ _ [Hg|Hg]; destruct Hcheck; contradiction.
    + intros r; discriminate.
    + intros err [= <-]. right. right. right. tauto.
    + intros _. now eexists.
  - apply andb_false_iff in Hcheck.
    rewrite !negb_false_iff, !String.eqb_eq in Hcheck.
    split; [|split; [|split]].
    + intros lister getter s' e' [= <- <-] [= <-] [= <-] _. reflexivity.
    + intros r [= <-]. cbn. auto.
    + intros err; discriminate.
    + intros [[err H]|[[err H]|[[err H]|[H1 H2]]]]; try discriminate.
      destruct Hcheck; contradiction.
Qed.

(* ------------------------------------------------------------------- *)
(** *** A store with one object, read over two hours *)
(* ------------------------------------------------------------------- *)

Module Scenario.

(** The world counts the calls answered so far. *)
Definition World := nat.

Definition hour00 : string := "year=2021/month=01/day=01/hour=00/logs_".
Definition hour01 : string := "year=2021/month=01/day=01/hour=01/logs_".
Definition key01 : string := "year=2021/month=01/day=01/hour=01/logs_1".
Definition payload : bytes := [Byte.x7b; Byte.x7d].

Definition onePage (page : list string) : ListObjectsV2Pager World :=
  MorePages (fun w => (inr page, S w)) (fun _ => NoMorePages).

(** One object under the prefix of 01:00, nothing elsewhere. *)
Definition lister : ListObjectsAPI World :=
  fun _ prefix w =>
    if (prefix =? hour01)%string then (onePage [key01], w) else (onePage [], w).

Definition body : ReadCloser World :=
  {| bodyReadAll := fun w => (inr payload, S w); bodyClose := fun w => w |}.

Definition getter : GetObjectAPI World := fun _ _ w => (inr body, S w).

Definition sink : s3ReaderDataCallback World := fun _ _ w => (None, S w).
Definition failingSink : s3ReaderDataCallback World :=
  fun _ _ w => (Some "sink failed", S w).

Definition neverDone : Context World := fun _ => false.
(** Cancelled once the first call has been answered. *)
Definition doneAfterOne : Context World := fun w => (1 <=? w)%nat.

Definition reader : s3Reader World := {|
  listObjectsClient := lister;
  getObjectClient := getter;
  s3Bucket := "bucket";
  s3Prefix := "";
  s3Partition := "hour";
  filePrefix := "";
  startTime := DateUTC 2021 1 1 0 0;
  endTime := DateUTC 2021 1 1 2 0
|}.

(** The same reader with its bounds exchanged. *)
Definition backwards : s3Reader World := {|
  listObjectsClient := lister;
  getObjectClient := getter;
  s3Bucket := "bucket";
  s3Prefix := "";
  s3Partition := "hour";
  filePrefix := "";
  startTime := DateUTC 2021 1 1 2 0;
  endTime := DateUTC 2021 1 1 0 0
|}.

Definition emptyHour00 : list Event :=
  [EvCtxDone false;
   EvLog Debug "Reading telemetry for time" [("prefix", hour00)];
   EvNewListObjectsV2Paginator "bucket" hour00;
   EvNextPage (inr []);
   EvLog Info "No telemetry found for time" [("prefix", hour00)]].

Definition listHour01 : list Event :=
  [EvCtxDone false;
   EvLog Debug "Reading telemetry for time" [("prefix", hour01)];
   EvNewListObjectsV2Paginator "bucket" hour01;
   EvNextPage (inr [key01]);
   EvGetObject "bucket" key01 None;
   EvReadBody (inr payload);
   EvCloseBody;
   EvLog Debug "Retrieved telemetry" [("key", key01)]].

Ltac run_turn :=
  rewrite readAllFrom_turn by reflexivity;
  match goal with
  | |- context [readTelemetryForTime ?r ?tt ?cb ?t ?w] =>
      let v := eval vm_compute in (readTelemetryForTime r tt cb t w) in
      replace (readTelemetryForTime r tt cb t w) with v
        by (vm_compute; reflexivity)
  end;
  cbv beta iota.

Ltac start_run r :=
  unfold readAll, bind, emit;
  replace (s3Partition r =? "hour")%string with true by reflexivity;
  cbv beta iota.

Lemma run_two_hours :
  readAll reader neverDone "logs" sink 0%nat =
  (inr tt, 5%nat,
   (Started :: emptyHour00 ++ listHour01 ++
    [EvDataCallback key01 payload None; Finished])%list).
Proof.
  start_run reader. run_turn. run_turn.
  rewrite readAllFrom_reached by reflexivity. reflexivity.
Qed.

Lemma run_cancelled :
  readAll reader doneAfterOne "logs" sink 0%nat =
  (inr tt, 1%nat, (Started :: emptyHour00 ++ [EvCtxDone true])%list).
Proof.
  start_run reader. run_turn.
  rewrite readAllFrom_before by reflexivity. reflexivity.
Qed.

Lemma run_failing_sink :
  readAll reader neverDone "logs" failingSink 0%nat =
  (inl "sink failed", 5%nat,
   (Started :: emptyHour00 ++ listHour01 ++
    [EvDataCallback key01 payload (Some "sink failed")])%list).
Proof.
  start_run reader. run_turn. run_turn. reflexivity.
Qed.

Definition twoHours : list Event :=
  (Started :: emptyHour00 ++ listHour01 ++
   [EvDataCallback key01 payload None; Finished])%list.


Example two_listing_calls :
  listingCalls twoHours = [("bucket", hour00); ("bucket", hour01)] /\
  sinkCalls twoHours = [(key01, payload)] /\
  Z.to_nat (ceilDiv (endTime reader - startTime reader) Hour) = 2%nat.
Proof. repeat split. Qed.

Lemma readAll_cancellation_witness :
  (Before (startTime reader) (endTime reader) = true /\
   doneAfterOne 1%nat = true /\
   readAllFrom reader doneAfterOne "logs" sink Hour eq_refl
     (startTime reader) 1%nat = (inr tt, 1%nat, [EvCtxDone true])) /\
  (inr tt = inr tt :> error + unit /\ @nil Event = [] /\
   listingCalls [EvCtxDone true] = []).
Proof.
  destruct (readAll_cancellation reader doneAfterOne "logs" sink)
    as [Hlocal Hrun].
  split.
  - split; [reflexivity | split; [reflexivity|]].
    apply Hlocal; reflexivity.
  - apply (Hrun 0%nat (inr tt) 1%nat
             (Started :: emptyHour00 ++ [EvCtxDone true])%list
             (Started :: emptyHour00)%list []).
    + exact run_cancelled.
    + reflexivity.
Defined.



Lemma readAll_degenerate_range_witness :
  ~ (startTime backwards < endTime backwards) /\
  readAll backwards neverDone "logs" sink 0%nat =
    (inr tt, 0%nat, [Started; Finished]).
Proof.
  assert (Hdeg : ~ (startTime backwards < endTime backwards))
    by (intros H; vm_compute in H; discriminate).
  split; [exact Hdeg|].
  exact (proj1 (readAll_degenerate_range backwards neverDone "logs" sink
                  0%nat Hdeg)).
Defined.

(** A reader of minute granularity with both prefixes set. *)
Definition minuteReader : s3Reader World := {|
  listObjectsClient := lister;
  getObjectClient := getter;
  s3Bucket := "bucket";
  s3Prefix := "otel";
  s3Partition := "minute";
  filePrefix := "app-";
  startTime := DateUTC 2024 2 29 7 5;
  endTime := DateUTC 2024 2 29 7 6
|}.

Lemma getObjectPrefixForTime_layout_witness :
  getObjectPrefixForTime minuteReader (DateUTC 2024 2 29 7 5) "logs" =
    keyPrefixLayout "otel" "app-" "logs" true 2024 2 29 7 5 /\
  (1 <= 2 <= 12 /\ 1 <= 29 <= 31 /\ 0 <= 7 <= 23 /\ 0 <= 5 <= 59) /\
  ((2024 <> 0 -> forall rest, decimal 2024 <> String "0" rest) /\
   option_map Z.of_int (NilEmpty.int_of_string (decimal 2024)) = Some 2024) /\
  (s3Prefix reader = "otel" -> filePrefix reader = "app-" ->
   s3Partition reader = "minute" ->
   getObjectPrefixForTime reader (DateUTC 2024 2 29 7 5) "logs" =
   getObjectPrefixForTime minuteReader (DateUTC 2024 2 29 7 5) "logs").
Proof.
  apply (getObjectPrefixForTime_layout minuteReader reader
           (DateUTC 2024 2 29 7 5) "logs" 2024 2 29 7 5 0).
  - right. reflexivity.
  - reflexivity.
  - reflexivity.
Defined.

Example prefix_minute :
  getObjectPrefixForTime minuteReader (DateUTC 2024 2 29 7 5) "logs" =
  "otel/year=2024/month=02/day=29/hour=07/minute=05/app-logs_".
Proof. reflexivity. Qed.

Example prefix_hour :
  getObjectPrefixForTime reader (DateUTC 2021 1 1 1 0) "logs" = hour01.
Proof. reflexivity. Qed.

(** A configuration whose bounds are written in the wrong order. *)
Definition reversedConfig : Config := {|
  S3Downloader := {|
    Region := "";
    S3Bucket := "bucket";
    S3Prefix := "";
    S3Partition := "hour";
    FilePrefix := "";
    Endpoint := "";
    S3ForcePathStyle := false
  |};
  StartTime := "2021-01-01 02:00";
  EndTime := "2021-01-01 00:00"
|}.

Definition newClients (_ : S3DownloaderConfig) :
    error + (ListObjectsAPI World * GetObjectAPI World) :=
  inr (lister, getter).

(** C6 as stated fails: both bounds of [reversedConfig] parse, the start is
    two hours after the end, and [newS3Reader] returns a reader, whose
    [startTime] is not before its [endTime]. *)
Lemma newS3Reader_accepts_reversed_bounds :
  parseTimeUTC (StartTime reversedConfig) "starttime" = inr (DateUTC 2021 1 1 2 0) /\
  parseTimeUTC (EndTime reversedConfig) "endtime" = inr (DateUTC 2021 1 1 0 0) /\
  newS3Reader newClients parseTimeUTC reversedConfig = inr backwards /\
  ~ (startTime backwards < endTime backwards).
Proof.
  split; [reflexivity|]. split; [reflexivity|]. split; [reflexivity|].
  intros H. vm_compute in H. discriminate.
Qed.

Lemma newS3Reader_checks_witness :
  newS3Reader newClients parseTimeUTC reversedConfig = inr backwards /\
  (s3Partition backwards = S3PartitionHour \/
   s3Partition backwards = S3PartitionMinute) /\
  parseTimeUTC (StartTime reversedConfig) "starttime" = inr (startTime backwards) /\
  parseTimeUTC (EndTime reversedConfig) "endtime" = inr (endTime backwards).
Proof.
  destruct (newS3Reader_checks newClients parseTimeUTC reversedConfig)
    as (Hbuild & Hbuilt & _).
  assert (Hrun : newS3Reader newClients parseTimeUTC reversedConfig = inr backwards).
  { apply (Hbuild lister getter (DateUTC 2021 1 1 2 0) (DateUTC 2021 1 1 0 0)).
    - reflexivity.
    - reflexivity.
    - reflexivity.
    - left. reflexivity. }
  split; [exact Hrun | exact (Hbuilt backwards Hrun)].
Defined.

Example parseTimeUTC_rejects :
  parseTimeUTC "2021-02-30 00:00" "starttime" = inl "unable to parse starttime" /\
  parseTimeUTC "yesterday" "endtime" = inl "unable to parse endtime".
Proof. split; reflexivity. Qed.

End Scenario.

(* ------------------------------------------------------------------- *)
(** *** More ways to read a trace *)
(* ------------------------------------------------------------------- *)

(** The keys of the objects [GetObject] returned without error. *)
Definition okFetches (evs : list Event) : list string :=
  flat_map (fun ev => match ev with
                      | EvGetObject _ k None => [k]
                      | _ => []
                      end) evs.

(** The contents of the bodies that were read to the end. *)
Definition okReads (evs : list Event) : list bytes :=
  flat_map (fun ev => match ev with
                      | EvReadBody (inr d) => [d]
                      | _ => []
                      end) evs.

(** The keys of the pages that [NextPage] returned, in order. *)
Definition listedKeys (evs : list Event) : list string :=
  flat_map (fun ev => match ev with
                      | EvNextPage (inr page) => page
                      | _ => []
                      end) evs.

(** The outcomes of the polls of [ctx.Done()], in order. *)
Definition polls (evs : list Event) : list bool :=
  flat_map (fun ev => match ev with
                      | EvCtxDone b => [b]
                      | _ => []
                      end) evs.

(** The buckets named in the calls to the store. *)
Definition buckets (evs : list Event) : list string :=
  flat_map (fun ev => match ev with
                      | EvNewListObjectsV2Paginator b _ => [b]
                      | EvGetObject b _ _ => [b]
                      | _ => []
                      end) evs.

(** Running a protocol over a trace: the state after the last event, or
    nothing when an event occurs where the protocol does not allow it. *)
Fixpoint follow {St : Type} (step : St -> Event -> option St) (s : St)
    (evs : list Event) : option St :=
  match evs with
  | [] => Some s
  | ev :: more =>
      match step s ev with
      | Some s' => follow step s' more
      | None => None
      end
  end.

(** The life of a response body: none at hand, handed out by [GetObject]
    and not read yet, read and not closed yet. *)
Inductive BodyState := NoBody | Unread | Unclosed.

(** A [GetObject] without error hands out a body, when none is at hand;
    the next event is then its read and the one after that its [Close].
    No body is read or closed otherwise, and nothing else happens while a
    body is at hand. *)
Definition bodyStep (s : BodyState) (ev : Event) : option BodyState :=
  match s, ev with
  | NoBody, EvGetObject _ _ None => Some Unread
  | NoBody, EvReadBody _ => None
  | NoBody, EvCloseBody => None
  | NoBody, _ => Some NoBody
  | Unread, EvReadBody _ => Some Unclosed
  | Unclosed, EvCloseBody => Some NoBody
  | _, _ => None
  end.

(** Where a run stands with respect to the polls of [ctx.Done()]: no poll
    is waiting for its step; the last poll found the context open; the
    step that follows it has logged its prefix; the last poll found the
    context done. *)
Inductive PollState :=
| Running
| Polled
| Announced (prefix : string)
| Cancelled.

(** A poll that finds the context open is followed at once by the log of
    the step and by its listing call, and there is no listing call
    without them; after a poll that finds the context done nothing
    happens. *)
Definition pollStep (s : PollState) (ev : Event) : option PollState :=
  match s, ev with
  | Running, EvCtxDone false => Some Polled
  | Running, EvCtxDone true => Some Cancelled
  | Running, EvNewListObjectsV2Paginator _ _ => None
  | Running, _ => Some Running
  | Polled, EvLog Debug msg [(_, prefix)] =>
      if (msg =? "Reading telemetry for time")%string
      then Some (Announced prefix) else None
  | Announced prefix, EvNewListObjectsV2Paginator _ p =>
      if (p =? prefix)%string then Some Running else None
  | _, _ => None
  end.

(** Where a run stands with respect to the log "No telemetry found for
    time": no listing waits for its first page; the listing call for a
    prefix was made and its first page has not come; the first page came
    and was empty, so that the log is due. *)
Inductive NoticeState :=
| Unlisted
| Listed (prefix : string)
| Owed (prefix : string).

(** The log is written when the first page of a listing is empty, as the
    next event and with the prefix of that listing, and at no other
    moment. *)
Definition noticeStep (s : NoticeState) (ev : Event) : option NoticeState :=
  match s, ev with
  | Owed prefix, EvLog Info msg [(_, p)] =>
      if (msg =? "No telemetry found for time")%string && (p =? prefix)%string
      then Some Unlisted else None
  | Owed _, _ => None
  | _, EvLog Info msg _ =>
      if (msg =? "No telemetry found for time")%string then None else Some s
  | _, EvNewListObjectsV2Paginator _ prefix => Some (Listed prefix)
  | Listed prefix, EvNextPage (inr []) => Some (Owed prefix)
  | Listed _, EvNextPage _ => Some Unlisted
  | _, _ => Some s
  end.

(** No log is due. *)
Definition settled (s : NoticeState) : bool :=
  match s with Owed _ => false | _ => true end.

(** The step of [readAll]: an hour for the partition "hour", a minute for
    every other one. *)
Definition timeStepOf {W} (r : s3Reader W) : Duration :=
  if (s3Partition r =? "hour")%string then Hour else Minute.

(** The instants [readAll] would visit if nothing stopped it. *)
Definition schedule {W} (r : s3Reader W) : list Time :=
  stepTimes (startTime r) (timeStepOf r)
    (Z.to_nat (ceilDiv (endTime r - startTime r) (timeStepOf r))).

(** One turn of [for _, obj := range page.Contents]. *)
Definition readObject {W} (r : s3Reader W)
    (dataCallback : s3ReaderDataCallback W) (key : string) : M W unit :=
  data <- retrieveObject r key ;;
  emit (EvLog Debug "Retrieved telemetry" [("key", key)]) ;;;
  callErr (dataCallback key data) (EvDataCallback key data).

(** One turn of [for p.HasMorePages()]: [NextPage], then the page. *)
Definition readTurn {W} (r : s3Reader W)
    (dataCallback : s3ReaderDataCallback W) (prefix : string)
    (NextPage : W -> (error + list string) * W) (firstPage : bool) : M W unit :=
  page <- call NextPage EvNextPage ;;
  readPage r dataCallback prefix firstPage page.

(** A law of traces: [Pok] for the trace of a computation that succeeded,
    [Pany] for the trace of one that failed. *)
Definition Obeys {W A} (Pok Pany : list Event -> Prop) (m : M W A) : Prop :=
  forall w, match m w with
            | (inr _, _, evs) => Pok evs
            | (inl _, _, evs) => Pany evs
            end.

(** What makes a law pass through [bind]. *)
Record TraceLaw (Pok Pany : list Event -> Prop) : Prop := {
  law_nil : Pok [];
  law_app : forall t1 t2, Pok t1 -> Pok t2 -> Pok (t1 ++ t2)%list;
  law_abort : forall t1 t2, Pok t1 -> Pany t2 -> Pany (t1 ++ t2)%list
}.

(** The ways the turn for one object can fail, by its trace. *)
Definition objectFailure (bucket key : string) (evs : list Event) : Prop :=
  (exists e, evs = [EvGetObject bucket key (Some e)]) \/
  (exists e, evs = [EvGetObject bucket key None; EvReadBody (inl e); EvCloseBody]) \/
  (exists d e,
      evs = [EvGetObject bucket key None; EvReadBody (inr d); EvCloseBody;
             EvLog Debug "Retrieved telemetry" [("key", key)];
             EvDataCallback key d (Some e)]).

(** A law that holds of every event of a step and of every turn for one
    object, so that it holds of every step. *)
Record ObjectLaw (bucket : string) (Pok Pany : list Event -> Prop) : Prop := {
  obj_law : TraceLaw Pok Pany;
  obj_log : forall level msg fields, Pok [EvLog level msg fields];
  obj_listing : forall prefix, Pok [EvNewListObjectsV2Paginator bucket prefix];
  obj_page : forall page, Pok [EvNextPage (inr page)];
  obj_page_failed : forall e, Pany [EvNextPage (inl e)];
  obj_done : forall key d, Pok (objectEvents bucket (key, d));
  obj_failed : forall key evs, objectFailure bucket key evs -> Pany evs
}.

(* ------------------------------------------------------------------- *)
(** *** Laws that every trace obeys *)
(* ------------------------------------------------------------------- *)

Lemma bind_assoc {W A B C} (m : M W A) (f : A -> M W B) (g : B -> M W C) w :
  bind m (fun a => bind (f a) g) w = bind (bind m f) g w.
Proof.
  unfold bind. destruct (m w) as [[[e|a] w1] t1]; trivial.
  destruct (f a w1) as [[[e|b] w2] t2]; trivial.
  destruct (g b w2) as [[res w3] t3]. now rewrite app_assoc.
Qed.

Section TraceLaws.

Context {W : Type}.
Variables Pok Pany : list Event -> Prop.
Hypothesis Hlaw : TraceLaw Pok Pany.

Lemma Obeys_ret {A} (a : A) : Obeys (W := W) Pok Pany (ret a).
Proof. intros w. apply Hlaw. Qed.

Lemma Obeys_emit ev : Pok [ev] -> Obeys (W := W) Pok Pany (emit ev).
Proof. intros H w. exact H. Qed.

Lemma Obeys_bind {A B} (m : M W A) (k : A -> M W B) :
  Obeys Pok Pany m -> (forall a, Obeys Pok Pany (k a)) -> Obeys Pok Pany (bind m k).
Proof.
  intros Hm Hk w. unfold bind. specialize (Hm w).
  destruct (m w) as [[[e|a] w1] t1]; trivial.
  specialize (Hk a w1). destruct (k a w1) as [[[e|b] w2] t2].
  - now apply Hlaw.
  - now apply Hlaw.
Qed.

Variable r : s3Reader W.
Variable ctx : Context W.
Variable telemetryType : string.
Variable dataCallback : s3ReaderDataCallback W.

Hypothesis Hlog : forall level msg fields, Pok [EvLog level msg fields].
Hypothesis Hlisting :
  forall prefix, Pok [EvNewListObjectsV2Paginator (s3Bucket r) prefix].
Hypothesis Hturn :
  forall prefix NextPage firstPage,
    Obeys Pok Pany (readTurn r dataCallback prefix NextPage firstPage).

Lemma Obeys_readPages prefix p :
  forall firstPage, Obeys Pok Pany (readPages r dataCallback prefix p firstPage).
Proof.
  induction p as [|NextPage rest IH]; intros firstPage w.
  - apply Hlaw.
  - cbn [readPages].
    rewrite (bind_assoc (call NextPage EvNextPage)
               (readPage r dataCallback prefix firstPage)
               (fun _ => readPages r dataCallback prefix (rest w) false)).
    apply (Obeys_bind (readTurn r dataCallback prefix NextPage firstPage)
             (fun _ => readPages r dataCallback prefix (rest w) false)).
    + apply Hturn.
    + intros _. apply IH.
Qed.

Lemma Obeys_readTelemetryForTime t :
  Obeys Pok Pany (readTelemetryForTime r telemetryType dataCallback t).
Proof.
  unfold readTelemetryForTime.
  apply Obeys_bind; [apply Obeys_emit, Hlog|]. intros _.
  apply Obeys_bind; [|intros p; apply Obeys_readPages].
  intros w. destruct (listObjectsClient r _ _ w) as [p w1]. apply Hlisting.
Qed.

Hypothesis Hpoll : forall b, Pok [EvCtxDone b].

Lemma Obeys_readAllFrom timeStep Hstep t w :
  match readAllFrom r ctx telemetryType dataCallback timeStep Hstep t w with
  | (inr _, _, evs) => Pok evs
  | (inl _, _, evs) => Pany evs
  end.
Proof.
  revert t w.
  apply (readAllFrom_rule r ctx telemetryType dataCallback timeStep Hstep
           (fun _ _ out => match out with
                           | (inr _, _, evs) => Pok evs
                           | (inl _, _, evs) => Pany evs
                           end)).
  - intros. apply Hlog.
  - intros. apply Hpoll.
  - intros t w e w1 t1 _ _ Hs.
    pose proof (Obeys_readTelemetryForTime t w) as H. rewrite Hs in H.
    apply (law_abort _ _ Hlaw [EvCtxDone false] t1); [apply Hpoll | exact H].
  - intros t w u w1 t1 res w2 t2 _ _ Hs _ IH.
    pose proof (Obeys_readTelemetryForTime t w) as H. rewrite Hs in H.
    assert (Hfront : Pok (EvCtxDone false :: t1))
      by (apply (law_app _ _ Hlaw [EvCtxDone false] t1); [apply Hpoll | exact H]).
    destruct res as [e|v].
    + apply (law_abort _ _ Hlaw (EvCtxDone false :: t1) t2); trivial.
    + apply (law_app _ _ Hlaw (EvCtxDone false :: t1) t2); trivial.
Qed.

Lemma Obeys_readAll : Obeys Pok Pany (readAll r ctx telemetryType dataCallback).
Proof.
  intros w. unfold readAll, bind, emit.
  destruct (s3Partition r =? "hour")%string.
  - pose proof (Obeys_readAllFrom Hour eq_refl (startTime r) w) as H.
    destruct (readAllFrom _ _ _ _ _ _ _ w) as [[[e|v] w2] t2].
    + apply (law_abort _ _ Hlaw [Started] t2); [apply Hlog | exact H].
    + apply (law_app _ _ Hlaw [Started] t2); [apply Hlog | exact H].
  - pose proof (Obeys_readAllFrom Minute eq_refl (startTime r) w) as H.
    destruct (readAllFrom _ _ _ _ _ _ _ w) as [[[e|v] w2] t2].
    + apply (law_abort _ _ Hlaw [Started] t2); [apply Hlog | exact H].
    + apply (law_app _ _ Hlaw [Started] t2); [apply Hlog | exact H].
Qed.

End TraceLaws.

Section ObjectLaws.

Context {W : Type}.
Variable r : s3Reader W.
Variable ctx : Context W.
Variable telemetryType : string.
Variable dataCallback : s3ReaderDataCallback W.

(** The trace of the turn for one object is that of a fetched and delivered
    object, or one of the three failures. *)
Lemma readObject_shapes key w :
  match readObject r dataCallback key w with
  | (inr _, _, evs) => exists d, evs = objectEvents (s3Bucket r) (key, d)
  | (inl _, _, evs) => objectFailure (s3Bucket r) key evs
  end.
Proof.
  unfold readObject, retrieveObject, bind, call, callErr, emit.
  destruct (getObjectClient r (s3Bucket r) key w) as [[e|output] w1].
  - left. now exists e.
  - destruct (bodyReadAll output w1) as [[e|d] w2].
    + right. left. now exists e.
    + destruct (dataCallback key d (bodyClose output w2)) as [[e|] w3].
      * right. right. now exists d, e.
      * now exists d.
Qed.

Lemma readObjects_cons key more w :
  readObjects r dataCallback (key :: more) w =
  bind (readObject r dataCallback key)
       (fun _ => readObjects r dataCallback more) w.
Proof.
  cbn [readObjects]. unfold readObject, bind, emit, callErr.
  destruct (retrieveObject r key w) as [[[e|d] w1] t1]; trivial.
  destruct (dataCallback key d w1) as [[e|] w2]; trivial.
  destruct (readObjects r dataCallback more w2) as [[res w3] t3].
  now rewrite <- !app_assoc.
Qed.

Variables Pok Pany : list Event -> Prop.
Hypothesis Hlaw : ObjectLaw (s3Bucket r) Pok Pany.

Lemma Obeys_readObject key : Obeys Pok Pany (readObject r dataCallback key).
Proof.
  intros w. pose proof (readObject_shapes key w) as H.
  destruct (readObject r dataCallback key w) as [[[e|u] w1] t1].
  - now apply (obj_failed _ _ _ Hlaw key).
  - destruct H as [d ->]. apply Hlaw.
Qed.

Lemma Obeys_readObjects contents :
  Obeys Pok Pany (readObjects r dataCallback contents).
Proof.
  induction contents as [|key more IH]; intros w.
  - apply Hlaw.
  - rewrite readObjects_cons.
    apply (Obeys_bind Pok Pany (obj_law _ _ _ Hlaw)); [apply Obeys_readObject|].
    intros _. exact IH.
Qed.

Lemma Obeys_readTurn prefix NextPage firstPage :
  Obeys Pok Pany (readTurn r dataCallback prefix NextPage firstPage).
Proof.
  unfold readTurn. apply (Obeys_bind Pok Pany (obj_law _ _ _ Hlaw)).
  - intros w. unfold call. destruct (NextPage w) as [[e|page] w1]; apply Hlaw.
  - intros page. unfold readPage. destruct (firstPage && _).
    + apply Obeys_emit, Hlaw.
    + apply Obeys_readObjects.
Qed.

(** A law of objects holds of every step ... *)
Lemma readTelemetryForTime_obeys t :
  Obeys Pok Pany (readTelemetryForTime r telemetryType dataCallback t).
Proof.
  apply Obeys_readTelemetryForTime.
  - apply Hlaw.
  - apply Hlaw.
  - apply Hlaw.
  - intros. apply Obeys_readTurn.
Qed.

(** ... and, when it holds of the polls as well, of every run. *)
Lemma readAll_obeys :
  (forall b, Pok [EvCtxDone b]) ->
  Obeys Pok Pany (readAll r ctx telemetryType dataCallback).
Proof.
  intros Hpoll. apply Obeys_readAll.
  - apply Hlaw.
  - apply Hlaw.
  - apply Hlaw.
  - intros. apply Obeys_readTurn.
  - exact Hpoll.
Qed.

End ObjectLaws.

Lemma combine_app_same {A B} (a1 a2 : list A) (b1 b2 : list B) :
  List.length a1 = List.length b1 ->
  combine (a1 ++ a2) (b1 ++ b2) = (combine a1 b1 ++ combine a2 b2)%list.
Proof.
  revert b1. induction a1 as [|x a1 IH]; intros [|y b1] Hlen; try discriminate.
  - reflexivity.
  - simpl. f_equal. apply IH. now injection Hlen.
Qed.

Lemma follow_app {St} (step : St -> Event -> option St) t1 :
  forall s t2,
    follow step s (t1 ++ t2) =
    match follow step s t1 with
    | Some s1 => follow step s1 t2
    | None => None
    end.
Proof.
  induction t1 as [|ev t1 IH]; intros s t2; [reflexivity|].
  cbn [follow app]. destruct (step s ev); [apply IH | reflexivity].
Qed.

Section ReaderLaws.

Context {W : Type}.
Variable r : s3Reader W.
Variable ctx : Context W.
Variable telemetryType : string.
Variable dataCallback : s3ReaderDataCallback W.

(** Bodies: the trace keeps to the protocol of [bodyStep] and leaves no
    body at hand. *)
Definition bodiesClosed (evs : list Event) : Prop :=
  follow bodyStep NoBody evs = Some NoBody.

Lemma bodiesClosed_law : ObjectLaw (s3Bucket r) bodiesClosed bodiesClosed.
Proof.
  assert (Happ : forall t1 t2,
             bodiesClosed t1 -> bodiesClosed t2 -> bodiesClosed (t1 ++ t2)).
  { unfold bodiesClosed. intros t1 t2 H1 H2. now rewrite follow_app, H1. }
  constructor.
  - split; [reflexivity | exact Happ | exact Happ].
  - reflexivity.
  - reflexivity.
  - reflexivity.
  - reflexivity.
  - reflexivity.
  - intros key evs [[e ->] | [[e ->] | (d & e & ->)]]; reflexivity.
Qed.

(** The sink: called with the successful fetches, paired with the bodies
    read. *)
Definition sinkFed (evs : list Event) : Prop :=
  sinkCalls evs = combine (okFetches evs) (okReads evs).

Definition sinkFedEven (evs : list Event) : Prop :=
  List.length (okFetches evs) = List.length (okReads evs) /\ sinkFed evs.

Lemma sinkFed_law : ObjectLaw (s3Bucket r) sinkFedEven sinkFed.
Proof.
  constructor.
  - split.
    + split; reflexivity.
    + unfold sinkFedEven, sinkFed, sinkCalls, okFetches, okReads.
      intros t1 t2 [H1 H2] [H3 H4]. rewrite !flat_map_app. split.
      * rewrite !length_app. lia.
      * rewrite combine_app_same by exact H1. now rewrite H2, H4.
    + unfold sinkFedEven, sinkFed, sinkCalls, okFetches, okReads.
      intros t1 t2 [H1 H2] H4. rewrite !flat_map_app.
      rewrite combine_app_same by exact H1. now rewrite H2, H4.
  - intros. split; reflexivity.
  - intros. split; reflexivity.
  - intros. split; reflexivity.
  - intros e. reflexivity.
  - intros. split; reflexivity.
  - intros key evs [[e ->] | [[e ->] | (d & e & ->)]]; reflexivity.
Qed.

(** The store: asked about the reader's bucket only. *)
Definition ownBucket (evs : list Event) : Prop :=
  Forall (fun b => b = s3Bucket r) (buckets evs).

Lemma ownBucket_law : ObjectLaw (s3Bucket r) ownBucket ownBucket.
Proof.
  assert (Happ : forall t1 t2, ownBucket t1 -> ownBucket t2 -> ownBucket (t1 ++ t2)).
  { unfold ownBucket, buckets. intros t1 t2 H1 H2.
    rewrite flat_map_app. now apply Forall_app. }
  constructor.
  - split; [constructor | exact Happ | exact Happ].
  - intros. constructor.
  - intros. repeat constructor.
  - intros. constructor.
  - intros. constructor.
  - intros. repeat constructor.
  - intros key evs [[e ->] | [[e ->] | (d & e & ->)]]; repeat constructor.
Qed.

End ReaderLaws.

Section ReaderLawTheorems.

Context {W : Type}.
Variable r : s3Reader W.
Variable ctx : Context W.
Variable telemetryType : string.
Variable dataCallback : s3ReaderDataCallback W.


(** X2. In every run of [readAll] the sink is called with exactly the
    objects that were fetched and read: its calls are, in order, the keys
    of the successful [GetObject]s paired with the bytes of the successful
    reads; and when the run returns nil every fetched object was read. *)
Theorem readAll_feeds_sink w :
  let res := fst (fst (readAll r ctx telemetryType dataCallback w)) in
  let evs := snd (readAll r ctx telemetryType dataCallback w) in
  sinkCalls evs = combine (okFetches evs) (okReads evs) /\
  (returned res = None -> List.length (okFetches evs) = List.length (okReads evs)).
Proof.
  pose proof (readAll_obeys r ctx telemetryType dataCallback _ _
                (sinkFed_law r)) as H.
  specialize (H ltac:(intros; split; reflexivity) w).
  destruct (readAll r ctx telemetryType dataCallback w) as [[[e|u] w1] evs];
    cbn [fst snd returned].
  - split; [exact H | discriminate].
  - destruct H as [Hlen Hfed]. split; [exact Hfed | intros _; exact Hlen].
Qed.

(** X3. In every run of [readAll], every listing call and every
    [GetObject] names the reader's bucket. *)
Theorem readAll_own_bucket w :
  Forall (fun b => b = s3Bucket r)
         (buckets (snd (readAll r ctx telemetryType dataCallback w))).
Proof.
  pose proof (readAll_obeys r ctx telemetryType dataCallback _ _
                (ownBucket_law r)) as H.
  specialize (H ltac:(intros; constructor) w).
  now destruct (readAll r ctx telemetryType dataCallback w) as [[[e|u] w1] evs].
Qed.

End ReaderLawTheorems.

Section FetchesListed.

Context {W : Type}.
Variable r : s3Reader W.
Variable ctx : Context W.
Variable telemetryType : string.
Variable dataCallback : s3ReaderDataCallback W.

(** The fetches are the listed keys, or the first of them. *)
Definition fetchedAll (evs : list Event) : Prop :=
  fetchCalls evs = listedKeys evs.

Definition fetchedSome (evs : list Event) : Prop :=
  exists rest, listedKeys evs = (fetchCalls evs ++ rest)%list.

Lemma fetched_law : TraceLaw fetchedAll fetchedSome.
Proof.
  unfold fetchedAll, fetchedSome, fetchCalls, listedKeys. split.
  - reflexivity.
  - intros t1 t2 H1 H2. rewrite !flat_map_app. now rewrite H1, H2.
  - intros t1 t2 H1 [rest H2]. exists rest.
    rewrite !flat_map_app. now rewrite H1, H2, app_assoc.
Qed.

Lemma readObjects_fetches page :
  forall w,
    match readObjects r dataCallback page w with
    | (inr _, _, evs) => fetchCalls evs = page /\ listedKeys evs = []
    | (inl _, _, evs) =>
        (exists rest, page = (fetchCalls evs ++ rest)%list) /\ listedKeys evs = []
    end.
Proof.
  induction page as [|key more IH]; intros w.
  - now split.
  - rewrite readObjects_cons. unfold bind.
    pose proof (readObject_shapes r dataCallback key w) as Hone.
    destruct (readObject r dataCallback key w) as [[[e|u] w1] t1].
    + destruct Hone as [[e1 ->] | [[e1 ->] | (d & e1 & ->)]];
        (split; [now exists more | reflexivity]).
    + destruct Hone as [d ->]. specialize (IH w1).
      destruct (readObjects r dataCallback more w1) as [[[e|v] w2] t2];
        unfold fetchCalls, listedKeys in *; rewrite !flat_map_app.
      * destruct IH as [[rest ->] Hl]. split; [now exists rest | now rewrite Hl].
      * destruct IH as [<- Hl]. split; [reflexivity | now rewrite Hl].
Qed.

Lemma fetched_readTurn prefix NextPage firstPage :
  Obeys fetchedAll fetchedSome (readTurn r dataCallback prefix NextPage firstPage).
Proof.
  intros w. unfold readTurn, bind, call.
  destruct (NextPage w) as [[e|page] w1]; [now exists []|].
  unfold readPage.
  destruct (firstPage && (List.length page =? 0)%nat) eqn:Hempty.
  - apply andb_prop in Hempty. destruct Hempty as [_ Hlen].
    apply Nat.eqb_eq in Hlen. destruct page; [reflexivity | discriminate].
  - pose proof (readObjects_fetches page w1) as H.
    destruct (readObjects r dataCallback page w1) as [[[e|v] w2] t2];
      unfold fetchedAll, fetchedSome, fetchCalls, listedKeys in *;
      cbn [flat_map app].
    + destruct H as [[rest Hp] Hl]. exists rest.
      now rewrite Hl, List.app_nil_r.
    + destruct H as [Hp Hl]. now rewrite Hl, List.app_nil_r.
Qed.

(** X4. In every run of [readAll], the objects fetched are the keys the
    listing returned, in the order it returned them: the fetches are the
    first of the listed keys, and all of them when the run returns nil. *)
Theorem readAll_fetches_listed w :
  let res := fst (fst (readAll r ctx telemetryType dataCallback w)) in
  let evs := snd (readAll r ctx telemetryType dataCallback w) in
  exists rest,
    listedKeys evs = (fetchCalls evs ++ rest)%list /\
    (returned res = None -> rest = []).
Proof.
  pose proof (Obeys_readAll fetchedAll fetchedSome fetched_law r ctx
                telemetryType dataCallback) as H.
  specialize (H ltac:(reflexivity) ltac:(reflexivity) fetched_readTurn
                ltac:(reflexivity) w).
  destruct (readAll r ctx telemetryType dataCallback w) as [[[e|u] w1] evs];
    cbn [fst snd returned].
  - destruct H as [rest H]. exists rest. split; [exact H | discriminate].
  - exists []. split; [|reflexivity]. rewrite List.app_nil_r. symmetry. exact H.
Qed.

End FetchesListed.

Lemma stepTimes_firstn start step n :
  forall k, (k <= n)%nat -> stepTimes start step k = firstn k (stepTimes start step n).
Proof.
  revert start. induction n as [|n IH]; intros start k Hk.
  - now replace k with O by lia.
  - destruct k as [|k]; [reflexivity|]. cbn [stepTimes firstn].
    f_equal. apply IH. lia.
Qed.

Lemma polls_app t1 t2 : polls (t1 ++ t2) = (polls t1 ++ polls t2)%list.
Proof. apply flat_map_app. Qed.

Section LoopLaws.

Context {W : Type}.
Variable r : s3Reader W.
Variable ctx : Context W.
Variable telemetryType : string.
Variable dataCallback : s3ReaderDataCallback W.

Lemma readAllFrom_listing_prefix timeStep Hstep t w :
  exists k,
    (k <= Z.to_nat (ceilDiv (endTime r - t) timeStep))%nat /\
    listingCalls
      (snd (readAllFrom r ctx telemetryType dataCallback timeStep Hstep t w)) =
    map (fun u => (s3Bucket r, getObjectPrefixForTime r u telemetryType))
        (stepTimes t timeStep k).
Proof.
  revert t w.
  apply (readAllFrom_rule r ctx telemetryType dataCallback timeStep Hstep
    (fun t _ out =>
       exists k,
         (k <= Z.to_nat (ceilDiv (endTime r - t) timeStep))%nat /\
         listingCalls (snd out) =
         map (fun u => (s3Bucket r, getObjectPrefixForTime r u telemetryType))
             (stepTimes t timeStep k))).
  - intros. exists O. split; [lia | reflexivity].
  - intros. exists O. split; [lia | reflexivity].
  - intros t w e w1 t1 Hb _ Hs. exists 1%nat.
    unfold Before in Hb. apply Z.ltb_lt in Hb. split.
    + rewrite ceilDiv_pos by lia. lia.
    + pose proof (listingCalls_readTelemetryForTime r telemetryType dataCallback
                    t w) as H1.
      rewrite Hs in H1. exact H1.
  - intros t w u w1 t1 res w2 t2 Hb _ Hs _ (k & Hk & IH). exists (S k).
    unfold Before in Hb. apply Z.ltb_lt in Hb. split.
    + rewrite ceilDiv_pos by lia.
      replace (endTime r - t - timeStep) with (endTime r - Add t timeStep)
        by (unfold Add; lia).
      lia.
    + pose proof (listingCalls_readTelemetryForTime r telemetryType dataCallback
                    t w) as H1.
      rewrite Hs in H1. cbn [snd] in *.
      change (EvCtxDone false :: t1 ++ t2)%list
        with ([EvCtxDone false] ++ t1 ++ t2)%list.
      rewrite !listingCalls_app, H1, IH. reflexivity.
Qed.

Lemma readAllFrom_listing_schedule Hstep w :
  exists k,
    (k <= List.length (schedule r))%nat /\
    listingCalls
      (snd (readAllFrom r ctx telemetryType dataCallback (timeStepOf r) Hstep
              (startTime r) w)) =
    map (fun u => (s3Bucket r, getObjectPrefixForTime r u telemetryType))
        (firstn k (schedule r)).
Proof.
  destruct (readAllFrom_listing_prefix (timeStepOf r) Hstep (startTime r) w)
    as (k & Hk & Hl).
  exists k. unfold schedule. rewrite stepTimes_length. split; [exact Hk|].
  now rewrite <- stepTimes_firstn.
Qed.

(** X5. In every run of [readAll], also one that fails or is cancelled,
    the listing calls are those of the first instants of the schedule
    [startTime], [startTime + step], ..., in order and without a gap: no
    instant is skipped, listed twice or listed out of order. *)
Theorem readAll_listing_prefix w :
  exists k,
    (k <= List.length (schedule r))%nat /\
    listingCalls (snd (readAll r ctx telemetryType dataCallback w)) =
    map (fun u => (s3Bucket r, getObjectPrefixForTime r u telemetryType))
        (firstn k (schedule r)).
Proof.
  pose proof readAllFrom_listing_schedule as Hloop.
  unfold readAll, bind, emit. unfold timeStepOf in Hloop.
  destruct (s3Partition r =? "hour")%string.
  - destruct (Hloop eq_refl w) as (k & Hk & Hl). exists k. split; [exact Hk|].
    destruct (readAllFrom _ _ _ _ _ _ _ w) as [[res w2] t2]. exact Hl.
  - destruct (Hloop eq_refl w) as (k & Hk & Hl). exists k. split; [exact Hk|].
    destruct (readAllFrom _ _ _ _ _ _ _ w) as [[res w2] t2]. exact Hl.
Qed.

(** Within a step the context is not polled. *)
Definition unpolled (evs : list Event) : Prop := polls evs = [].

Lemma unpolled_law : ObjectLaw (s3Bucket r) unpolled unpolled.
Proof.
  assert (Happ : forall t1 t2, unpolled t1 -> unpolled t2 -> unpolled (t1 ++ t2)).
  { unfold unpolled. intros t1 t2 H1 H2. now rewrite polls_app, H1, H2. }
  constructor.
  - split; [reflexivity | exact Happ | exact Happ].
  - reflexivity.
  - reflexivity.
  - reflexivity.
  - reflexivity.
  - reflexivity.
  - intros key evs [[e ->] | [[e ->] | (d & e & ->)]]; reflexivity.
Qed.

Lemma polls_readTelemetryForTime t w :
  polls (snd (readTelemetryForTime r telemetryType dataCallback t w)) = [].
Proof.
  pose proof (readTelemetryForTime_obeys r telemetryType dataCallback _ _
                unpolled_law t w) as H.
  now destruct (readTelemetryForTime _ _ _ _ w) as [[[e|u] w1] evs].
Qed.

(** A trace without a poll and without a listing call leaves a run where
    it stands. *)
Lemma follow_pollStep_inside evs :
  polls evs = [] -> listingCalls evs = [] ->
  follow pollStep Running evs = Some Running.
Proof.
  induction evs as [|ev evs IH]; intros Hp Hl; [reflexivity|].
  destruct ev; cbn in Hp, Hl |- *; try discriminate; now apply IH.
Qed.

(** A step with the poll before it: the poll, the log of the prefix, the
    listing call, and then neither a poll nor a listing call. *)
Lemma follow_pollStep_step t w :
  follow pollStep Running
    (EvCtxDone false ::
     snd (readTelemetryForTime r telemetryType dataCallback t w))
  = Some Running.
Proof.
  pose proof (polls_readTelemetryForTime t w) as Hp.
  pose proof (listingCalls_readTelemetryForTime r telemetryType dataCallback
                t w) as Hl.
  unfold readTelemetryForTime, bind, emit in *.
  destruct (listObjectsClient r _ _ w) as [p w0].
  destruct (readPages r dataCallback _ p true w0) as [[res w1] t1].
  cbn [snd app] in *. cbn [follow pollStep].
  change ("Reading telemetry for time" =? "Reading telemetry for time")%string
    with true.
  cbv iota. cbn [pollStep]. rewrite String.eqb_refl.
  apply follow_pollStep_inside.
  - exact Hp.
  - cbn in Hl. now injection Hl.
Qed.

Lemma readAll_polls_count w :
  let evs := snd (readAll r ctx telemetryType dataCallback w) in
  exists last,
    polls evs = (repeat false (List.length (listingCalls evs)) ++ last)%list /\
    (last = [] \/ last = [true]).
Proof.
  assert (Hloop : forall timeStep Hstep t w0,
    let evs := snd (readAllFrom r ctx telemetryType dataCallback timeStep Hstep
                      t w0) in
    exists last,
      polls evs = (repeat false (List.length (listingCalls evs)) ++ last)%list /\
      (last = [] \/ last = [true])).
  { intros timeStep Hstep.
    apply (readAllFrom_rule r ctx telemetryType dataCallback timeStep Hstep
      (fun _ _ out =>
         exists last,
           polls (snd out) =
             (repeat false (List.length (listingCalls (snd out))) ++ last)%list /\
           (last = [] \/ last = [true]))).
    - intros. exists []. split; [reflexivity | now left].
    - intros. exists [true]. split; [reflexivity | now right].
    - intros t w0 e w1 t1 _ _ Hs. exists []. split; [|now left].
      pose proof (listingCalls_readTelemetryForTime r telemetryType dataCallback
                    t w0) as Hl.
      pose proof (polls_readTelemetryForTime t w0) as Hp.
      rewrite Hs in Hl, Hp. cbn [snd] in *.
      change (EvCtxDone false :: t1)%list with ([EvCtxDone false] ++ t1)%list.
      rewrite polls_app, listingCalls_app, Hl, Hp. reflexivity.
    - intros t w0 u w1 t1 res w2 t2 _ _ Hs _ (last & IH & Hlast).
      exists last. split; [|exact Hlast].
      pose proof (listingCalls_readTelemetryForTime r telemetryType dataCallback
                    t w0) as Hl.
      pose proof (polls_readTelemetryForTime t w0) as Hp.
      rewrite Hs in Hl, Hp. cbn [snd] in *.
      change (EvCtxDone false :: t1 ++ t2)%list
        with ([EvCtxDone false] ++ t1 ++ t2)%list.
      rewrite !polls_app, !listingCalls_app, Hl, Hp, IH. reflexivity. }
  unfold readAll, bind, emit.
  destruct (s3Partition r =? "hour")%string.
  - specialize (Hloop Hour eq_refl (startTime r) w).
    destruct (readAllFrom _ _ _ _ _ _ _ w) as [[res w2] t2]. exact Hloop.
  - specialize (Hloop Minute eq_refl (startTime r) w).
    destruct (readAllFrom _ _ _ _ _ _ _ w) as [[res w2] t2]. exact Hloop.
Qed.

(** X6. In every run of [readAll] the context is polled between steps
    only. A poll that finds the context open is followed at once by the
    log "Reading telemetry for time" of a step and by the listing call for
    the prefix logged, and no listing call is made without that poll
    before it, so that there is exactly one poll per step; a poll that
    finds the context done is the last event of the run. Counted: one
    poll that found the context open per listing call, and at most one
    more, which found it done. *)
Theorem readAll_polls_between_steps w :
  let evs := snd (readAll r ctx telemetryType dataCallback w) in
  (exists s, follow pollStep Running evs = Some s) /\
  exists last,
    polls evs = (repeat false (List.length (listingCalls evs)) ++ last)%list /\
    (last = [] \/ last = [true]).
Proof.
  split; [|exact (readAll_polls_count w)].
  assert (Hloop : forall timeStep Hstep t w0,
    exists s,
      follow pollStep Running
        (snd (readAllFrom r ctx telemetryType dataCallback timeStep Hstep t w0))
      = Some s).
  { intros timeStep Hstep.
    apply (readAllFrom_rule r ctx telemetryType dataCallback timeStep Hstep
      (fun _ _ out => exists s, follow pollStep Running (snd out) = Some s)).
    - intros. now exists Running.
    - intros. now exists Cancelled.
    - intros t w0 e w1 t1 _ _ Hs. exists Running.
      pose proof (follow_pollStep_step t w0) as H. now rewrite Hs in H.
    - intros t w0 u w1 t1 res w2 t2 _ _ Hs _ [s IH]. exists s.
      pose proof (follow_pollStep_step t w0) as H. rewrite Hs in H.
      cbn [snd] in *.
      change (EvCtxDone false :: t1 ++ t2)%list
        with ((EvCtxDone false :: t1) ++ t2)%list.
      now rewrite follow_app, H. }
  unfold readAll, bind, emit.
  destruct (s3Partition r =? "hour")%string.
  - destruct (Hloop Hour eq_refl (startTime r) w) as [s Hs]. exists s.
    destruct (readAllFrom _ _ _ _ _ _ _ w) as [[res w2] t2]. exact Hs.
  - destruct (Hloop Minute eq_refl (startTime r) w) as [s Hs]. exists s.
    destruct (readAllFrom _ _ _ _ _ _ _ w) as [[res w2] t2]. exact Hs.
Qed.

End LoopLaws.

Section EmptyNotices.

Context {W : Type}.
Variable r : s3Reader W.
Variable ctx : Context W.
Variable telemetryType : string.
Variable dataCallback : s3ReaderDataCallback W.

(** Reading the objects of a page writes no such log and lists nothing. *)
Lemma follow_noticeStep_objects page :
  forall w,
    follow noticeStep Unlisted (snd (readObjects r dataCallback page w))
    = Some Unlisted.
Proof.
  induction page as [|key more IH]; intros w; [reflexivity|].
  rewrite readObjects_cons. unfold bind.
  pose proof (readObject_shapes r dataCallback key w) as Hone.
  destruct (readObject r dataCallback key w) as [[[e|u] w1] t1].
  - now destruct Hone as [[e1 ->] | [[e1 ->] | (d & e1 & ->)]].
  - destruct Hone as [d ->]. specialize (IH w1).
    destruct (readObjects r dataCallback more w1) as [[res w2] t2].
    cbn [snd] in *. rewrite follow_app. exact IH.
Qed.

(** After the first page nothing is said about empty pages. *)
Lemma follow_noticeStep_later_pages prefix p :
  forall w,
    follow noticeStep Unlisted
      (snd (readPages r dataCallback prefix p false w))
    = Some Unlisted.
Proof.
  induction p as [|NextPage rest IH]; intros w; [reflexivity|].
  cbn [readPages]. unfold bind, call, readPage. cbn [andb].
  destruct (NextPage w) as [[e|page] w1]; [reflexivity|].
  pose proof (follow_noticeStep_objects page w1) as Hpage.
  destruct (readObjects r dataCallback page w1) as [[[e|u] w2] t2];
    cbn [snd] in *.
  - exact Hpage.
  - specialize (IH w w2).
    destruct (readPages r dataCallback prefix (rest w) false w2) as [[res w3] t3].
    cbn [snd] in *.
    cbn [app follow noticeStep]. now rewrite follow_app, Hpage.
Qed.

(** The pages of a listing, from the listing call on. *)
Lemma follow_noticeStep_pages prefix p w :
  exists s,
    follow noticeStep (Listed prefix)
      (snd (readPages r dataCallback prefix p true w)) = Some s /\
    settled s = true.
Proof.
  destruct p as [|NextPage rest]; [now exists (Listed prefix)|].
  exists Unlisted. split; [|reflexivity].
  cbn [readPages]. unfold bind, call.
  destruct (NextPage w) as [[e|page] w1]; [reflexivity|].
  unfold readPage. destruct page as [|key more]; cbn [andb List.length Nat.eqb].
  - unfold emit.
    pose proof (follow_noticeStep_later_pages prefix (rest w) w1) as Hrest.
    destruct (readPages r dataCallback prefix (rest w) false w1)
      as [[res w2] t2].
    cbn [snd app follow noticeStep] in *.
    change ("No telemetry found for time" =? "No telemetry found for time")%string
      with true.
    rewrite String.eqb_refl. exact Hrest.
  - pose proof (follow_noticeStep_objects (key :: more) w1) as Hpage.
    destruct (readObjects r dataCallback (key :: more) w1) as [[[e|u] w2] t2];
      cbn [snd] in *.
    + exact Hpage.
    + pose proof (follow_noticeStep_later_pages prefix (rest w) w2) as Hrest.
      destruct (readPages r dataCallback prefix (rest w) false w2)
        as [[res w3] t3].
      cbn [snd] in *.
      cbn [app follow noticeStep]. now rewrite follow_app, Hpage.
Qed.

(** A step with the poll before it. *)
Lemma follow_noticeStep_step t w s :
  settled s = true ->
  exists s',
    follow noticeStep s
      (EvCtxDone false ::
       snd (readTelemetryForTime r telemetryType dataCallback t w)) = Some s' /\
    settled s' = true.
Proof.
  intros Hs. unfold readTelemetryForTime, bind, emit.
  set (prefix := getObjectPrefixForTime r t telemetryType).
  destruct (listObjectsClient r (s3Bucket r) prefix w) as [p w0].
  destruct (follow_noticeStep_pages prefix p w0) as (s' & Hpages & Hs').
  exists s'. split; [|exact Hs'].
  destruct (readPages r dataCallback prefix p true w0) as [[res w1] t1].
  cbn [snd app] in *.
  destruct s as [|p0|p0]; [| |discriminate]; exact Hpages.
Qed.

(** X7. In every run of [readAll], also one that fails or is cancelled,
    the log "No telemetry found for time" is written exactly when the
    first page of a listing comes back empty: it is the event right after
    that page and carries the prefix of that listing, and it is written at
    no other moment. So it is written at most once per listing call, and
    an empty page that is not the first of its listing is passed over in
    silence. *)
Theorem readAll_empty_notices w :
  exists s,
    follow noticeStep Unlisted
      (snd (readAll r ctx telemetryType dataCallback w)) = Some s /\
    settled s = true.
Proof.
  assert (Hloop : forall timeStep Hstep t w0 s,
    settled s = true ->
    exists s',
      follow noticeStep s
        (snd (readAllFrom r ctx telemetryType dataCallback timeStep Hstep t w0))
      = Some s' /\
      settled s' = true).
  { intros timeStep Hstep.
    apply (readAllFrom_rule r ctx telemetryType dataCallback timeStep Hstep
      (fun _ _ out =>
         forall s, settled s = true ->
           exists s', follow noticeStep s (snd out) = Some s' /\
                      settled s' = true)).
    - intros t w0 _ s Hs. exists s. split; [|exact Hs].
      destruct s; [reflexivity | reflexivity | discriminate].
    - intros t w0 _ _ s Hs. exists s. split; [|exact Hs].
      destruct s; [reflexivity | reflexivity | discriminate].
    - intros t w0 e w1 t1 _ _ Hrun s Hs.
      pose proof (follow_noticeStep_step t w0 s Hs) as H.
      now rewrite Hrun in H.
    - intros t w0 u w1 t1 res w2 t2 _ _ Hrun _ IH s Hs.
      pose proof (follow_noticeStep_step t w0 s Hs) as H.
      rewrite Hrun in H. destruct H as (s1 & H1 & Hs1).
      destruct (IH s1 Hs1) as (s2 & H2 & Hs2).
      exists s2. split; [|exact Hs2]. cbn [snd] in *.
      change (EvCtxDone false :: t1 ++ t2)%list
        with ((EvCtxDone false :: t1) ++ t2)%list.
      now rewrite follow_app, H1. }
  unfold readAll, bind, emit.
  destruct (s3Partition r =? "hour")%string.
  - destruct (Hloop Hour eq_refl (startTime r) w Unlisted eq_refl)
      as (s & Hs & Hsettled).
    exists s. split; [|exact Hsettled].
    destruct (readAllFrom _ _ _ _ _ _ _ w) as [[res w2] t2]. exact Hs.
  - destruct (Hloop Minute eq_refl (startTime r) w Unlisted eq_refl)
      as (s & Hs & Hsettled).
    exists s. split; [|exact Hsettled].
    destruct (readAllFrom _ _ _ _ _ _ _ w) as [[res w2] t2]. exact Hs.
Qed.

End EmptyNotices.

(* ------------------------------------------------------------------- *)
(** *** The time keys *)
(* ------------------------------------------------------------------- *)

(** No character of the string is a slash. *)
Fixpoint noSlash (s : string) : bool :=
  match s with
  | EmptyString => true
  | String c s' => negb (c =? "/")%char && noSlash s'
  end.

Lemma split_at_slash a : forall a' s s',
  noSlash a = true -> noSlash a' = true ->
  a ++ String "/" s = a' ++ String "/" s' -> a = a' /\ s = s'.
Proof.
  induction a as [|c a IH]; intros [|c' a'] s s' Ha Ha' Heq; cbn in *.
  - now injection Heq.
  - injection Heq as <- _. now rewrite Ascii.eqb_refl in Ha'.
  - injection Heq as -> _. now rewrite Ascii.eqb_refl in Ha.
  - injection Heq as <- Heq.
    apply andb_prop in Ha. apply andb_prop in Ha'.
    destruct (IH a' s s') as [-> ->]; tauto.
Qed.

Lemma noSlash_string_of_uint d : noSlash (NilEmpty.string_of_uint d) = true.
Proof. induction d; cbn; trivial. Qed.

Lemma noSlash_decimal z : noSlash (decimal z) = true.
Proof.
  unfold decimal. destruct (Z.to_int z); cbn; apply noSlash_string_of_uint.
Qed.

Lemma decimal_injective z z' : decimal z = decimal z' -> z = z'.
Proof.
  intros Heq. pose proof (proj2 (decimal_unpadded z)) as Hz.
  pose proof (proj2 (decimal_unpadded z')) as Hz'.
  rewrite Heq in Hz. congruence.
Qed.

Lemma digitChar_injective d d' :
  0 <= d <= 9 -> 0 <= d' <= 9 -> digitChar d = digitChar d' -> d = d'.
Proof.
  intros Hd Hd' Heq. unfold digitChar in Heq.
  apply (f_equal nat_of_ascii) in Heq.
  rewrite !nat_ascii_embedding in Heq by lia. lia.
Qed.

Lemma twoDigits_injective v v' :
  0 <= v <= 99 -> 0 <= v' <= 99 -> twoDigits v = twoDigits v' -> v = v'.
Proof.
  intros Hv Hv' Heq. unfold twoDigits in Heq. injection Heq as Hhi Hlo.
  apply digitChar_injective in Hhi;
    [|Z.div_mod_to_equations; lia|Z.div_mod_to_equations; lia].
  apply digitChar_injective in Hlo;
    [|Z.div_mod_to_equations; lia|Z.div_mod_to_equations; lia].
  Z.div_mod_to_equations. lia.
Qed.

(** X8. The key of the minute partition is the key of the hour partition
    of the same instant followed by its [/minute=mm] part. *)
Theorem minute_key_extends_hour_key t :
  getTimeKeyPartitionMinute t =
  getTimeKeyPartitionHour t ++ "/minute=" ++ twoDigits (snd (fst (Clock t))).
Proof.
  destruct (Date t) as [[year month] day] eqn:Hd.
  destruct (Clock t) as [[hour minute] second] eqn:Hk.
  rewrite (getTimeKeyPartitionMinute_layout t _ _ _ _ _ _ Hd Hk).
  rewrite (getTimeKeyPartitionHour_layout t _ _ _ Hd).
  rewrite HourOf_Clock, Hk. cbn [fst snd].
  rewrite <- !string_app_assoc. reflexivity.
Qed.

(** X9. Two instants have the same hour key exactly when they fall in the
    same hour of the same day, and the same minute key exactly when they
    fall in the same minute: distinct partitions never share a key. *)
Theorem time_keys_injective t t' :
  (getTimeKeyPartitionHour t = getTimeKeyPartitionHour t' <->
   Date t = Date t' /\ HourOf t = HourOf t') /\
  (getTimeKeyPartitionMinute t = getTimeKeyPartitionMinute t' <->
   Date t = Date t' /\ HourOf t = HourOf t' /\
   snd (fst (Clock t)) = snd (fst (Clock t'))).
Proof.
  pose proof (Date_range t) as Hr. pose proof (Date_range t') as Hr'.
  pose proof (Clock_range t) as Hc. pose proof (Clock_range t') as Hc'.
  rewrite !HourOf_Clock.
  destruct (Date t) as [[y m] d] eqn:Hd.
  destruct (Date t') as [[y' m'] d'] eqn:Hd'.
  destruct (Clock t) as [[h mi] s] eqn:Hk.
  destruct (Clock t') as [[h' mi'] s'] eqn:Hk'.
  cbn [fst snd].
  rewrite (getTimeKeyPartitionHour_layout t _ _ _ Hd).
  rewrite (getTimeKeyPartitionHour_layout t' _ _ _ Hd').
  rewrite (getTimeKeyPartitionMinute_layout t _ _ _ _ _ _ Hd Hk).
  rewrite (getTimeKeyPartitionMinute_layout t' _ _ _ _ _ _ Hd' Hk').
  rewrite !HourOf_Clock, Hk, Hk'. cbn [fst snd].
  split; split.
  - intros Heq. cbn [append] in Heq. injection Heq as Heq.
    apply split_at_slash in Heq; try apply noSlash_decimal.
    destruct Heq as [Hy Heq]. apply decimal_injective in Hy.
    unfold twoDigits in Heq. cbn [append] in Heq.
    injection Heq as Hm1 Hm2 Hd1 Hd2 Hh1 Hh2.
    assert (m = m') by (apply twoDigits_injective; [lia|lia|unfold twoDigits; congruence]).
    assert (d = d') by (apply twoDigits_injective; [lia|lia|unfold twoDigits; congruence]).
    assert (h = h') by (apply twoDigits_injective; [lia|lia|unfold twoDigits; congruence]).
    subst. now split.
  - intros [Hdate Hhour]. injection Hdate as -> -> ->. now subst.
  - intros Heq. cbn [append] in Heq. injection Heq as Heq.
    apply split_at_slash in Heq; try apply noSlash_decimal.
    destruct Heq as [Hy Heq]. apply decimal_injective in Hy.
    unfold twoDigits in Heq. cbn [append] in Heq.
    injection Heq as Hm1 Hm2 Hd1 Hd2 Hh1 Hh2 Hn1 Hn2.
    assert (m = m') by (apply twoDigits_injective; [lia|lia|unfold twoDigits; congruence]).
    assert (d = d') by (apply twoDigits_injective; [lia|lia|unfold twoDigits; congruence]).
    assert (h = h') by (apply twoDigits_injective; [lia|lia|unfold twoDigits; congruence]).
    assert (mi = mi') by (apply twoDigits_injective; [lia|lia|unfold twoDigits; congruence]).
    subst. now repeat split.
  - intros (Hdate & Hhour & Hmin). injection Hdate as -> -> ->. now subst.
Qed.

(* ------------------------------------------------------------------- *)
(** *** The order of the checks of [newS3Reader] *)
(* ------------------------------------------------------------------- *)

(** The first error of a list of outcomes. *)
Fixpoint firstError (outcomes : list (option error)) : option error :=
  match outcomes with
  | [] => None
  | Some e :: _ => Some e
  | None :: more => firstError more
  end.

(** The outcome of the check of the granularity. *)
Definition partitionCheck (partition : string) : option error :=
  if ((partition =? S3PartitionHour) || (partition =? S3PartitionMinute))%string
  then None
  else Some "s3_partition must be either 'hour' or 'minute'".

(** X10. [newS3Reader] reports the first failure in the order in which it
    works: the clients, then [starttime], then [endtime], then the
    granularity; a later failure never hides an earlier one, and when none
    of the four fails a reader is returned. *)
Theorem newS3Reader_first_error {W}
    (newS3Client : S3DownloaderConfig -> error + (ListObjectsAPI W * GetObjectAPI W))
    (parseTime : string -> string -> error + Time) (cfg : Config) :
  returned (newS3Reader newS3Client parseTime cfg) =
  firstError
    [returned (newS3Client (S3Downloader cfg));
     returned (parseTime (StartTime cfg) "starttime");
     returned (parseTime (EndTime cfg) "endtime");
     partitionCheck (S3Partition (S3Downloader cfg))].
Proof.
  unfold newS3Reader, partitionCheck.
  destruct (newS3Client (S3Downloader cfg)) as [e0|[l g]]; [reflexivity|].
  destruct (parseTime (StartTime cfg) "starttime") as [e1|s]; [reflexivity|].
  destruct (parseTime (EndTime cfg) "endtime") as [e2|e]; [reflexivity|].
  cbn [returned firstError].
  destruct (S3Partition (S3Downloader cfg) =? S3PartitionHour)%string;
    destruct (S3Partition (S3Downloader cfg) =? S3PartitionMinute)%string;
    reflexivity.
Qed.

(* ------------------------------------------------------------------- *)
(** *** From the configuration to the listing calls *)
(* ------------------------------------------------------------------- *)

Lemma getObjectPrefixForTime_keyPrefixLayout {W} (r : s3Reader W) t telemetryType
    year month day hour minute second :
  s3Partition r = S3PartitionHour \/ s3Partition r = S3PartitionMinute ->
  Date t = (year, month, day) -> Clock t = (hour, minute, second) ->
  getObjectPrefixForTime r t telemetryType =
  keyPrefixLayout (s3Prefix r) (filePrefix r) telemetryType
    (s3Partition r =? S3PartitionMinute)%string year month day hour minute.
Proof.
  intros Hgran Hd Hk. unfold getObjectPrefixForTime, keyPrefixLayout.
  rewrite Sprintf_with_prefix, Sprintf_without_prefix.
  replace (if (s3Partition r =? S3PartitionMinute)%string
           then getTimeKeyPartitionMinute t
           else if (s3Partition r =? S3PartitionHour)%string
                then getTimeKeyPartitionHour t else "")
    with ("year=" ++ decimal year ++ "/month=" ++ twoDigits month ++
          "/day=" ++ twoDigits day ++ "/hour=" ++ twoDigits hour ++
          (if (s3Partition r =? S3PartitionMinute)%string
           then "/minute=" ++ twoDigits minute else "")).
  - destruct (s3Prefix r =? "")%string; [reflexivity|].
    cbn [negb]. rewrite <- (string_app_assoc (s3Prefix r) "/"). reflexivity.
  - destruct Hgran as [-> | ->]; cbn [String.eqb Ascii.eqb Bool.eqb
                                      S3PartitionHour S3PartitionMinute].
    + rewrite (getTimeKeyPartitionHour_layout t year month day Hd).
      rewrite HourOf_Clock, Hk. reflexivity.
    + symmetry. exact (getTimeKeyPartitionMinute_layout t _ _ _ _ _ _ Hd Hk).
Qed.

(** The listing call the configuration asks for at an instant. *)
Definition configuredListing (cfg : Config) (telemetryType : string) (t : Time)
    : string * string :=
  let '(year, month, day) := Date t in
  let '(hour, minute, _) := Clock t in
  (S3Bucket (S3Downloader cfg),
   keyPrefixLayout (S3Prefix (S3Downloader cfg)) (FilePrefix (S3Downloader cfg))
     telemetryType
     (S3Partition (S3Downloader cfg) =? S3PartitionMinute)%string
     year month day hour minute).

(** X11. A reader that [newS3Reader] built from a configuration lists, in
    every run of [readAll], the configured bucket under the prefixes laid
    out from the configured [S3Prefix], [FilePrefix] and partition, for the
    first instants of the walk from the parsed [starttime] towards the
    parsed [endtime], in order. *)
Theorem newS3Reader_then_readAll {W}
    (newS3Client : S3DownloaderConfig -> error + (ListObjectsAPI W * GetObjectAPI W))
    (parseTime : string -> string -> error + Time) (cfg : Config)
    (r : s3Reader W) ctx telemetryType dataCallback w :
  newS3Reader newS3Client parseTime cfg = inr r ->
  parseTime (StartTime cfg) "starttime" = inr (startTime r) /\
  parseTime (EndTime cfg) "endtime" = inr (endTime r) /\
  exists k,
    (k <= List.length (schedule r))%nat /\
    listingCalls (snd (readAll r ctx telemetryType dataCallback w)) =
    map (configuredListing cfg telemetryType) (firstn k (schedule r)).
Proof.
  intros Hbuilt. unfold newS3Reader in Hbuilt.
  destruct (newS3Client (S3Downloader cfg)) as [e0|[l g]]; [discriminate|].
  destruct (parseTime (StartTime cfg) "starttime") as [e1|s]; [discriminate|].
  destruct (parseTime (EndTime cfg) "endtime") as [e2|e]; [discriminate|].
  destruct (negb (S3Partition (S3Downloader cfg) =? S3PartitionHour)%string
            && negb (S3Partition (S3Downloader cfg) =? S3PartitionMinute)%string)
    eqn:Hcheck; [discriminate|].
  apply andb_false_iff in Hcheck.
  rewrite !negb_false_iff, !String.eqb_eq in Hcheck.
  injection Hbuilt as <-. cbn [startTime endTime].
  split; [reflexivity|]. split; [reflexivity|].
  match goal with |- context [readAll ?rd _ _ _ _] => set (r := rd) end.
  assert (Hl : exists k,
    (k <= List.length (schedule r))%nat /\
    listingCalls (snd (readAll r ctx telemetryType dataCallback w)) =
    map (fun u => (s3Bucket r, getObjectPrefixForTime r u telemetryType))
        (firstn k (schedule r))).
  { pose proof (readAllFrom_listing_schedule r ctx telemetryType dataCallback)
      as Hloop.
    unfold readAll, bind, emit. unfold timeStepOf in Hloop.
    destruct (s3Partition r =? "hour")%string;
      destruct (Hloop eq_refl w) as (k & Hk & Hl); exists k;
      (split; [exact Hk|]);
      destruct (readAllFrom _ _ _ _ _ _ _ w) as [[res w2] t2]; exact Hl. }
  destruct Hl as (k & Hk & Hl).
  exists k. split; [exact Hk|]. rewrite Hl. apply map_ext. intros t.
  unfold configuredListing.
  destruct (Date t) as [[year month] day] eqn:Hd.
  destruct (Clock t) as [[hour minute] second] eqn:Hc.
  f_equal.
  exact (getObjectPrefixForTime_keyPrefixLayout r t telemetryType _ _ _ _ _ _
           Hcheck Hd Hc).
Qed.

(* ------------------------------------------------------------------- *)
(** *** The store with one object, from its configuration *)
(* ------------------------------------------------------------------- *)

Module Configured.

Import Scenario.

(** The configuration of [Scenario.reader]. *)
Definition forwardConfig : Config := {|
  S3Downloader := {|
    Region := "";
    S3Bucket := "bucket";
    S3Prefix := "";
    S3Partition := "hour";
    FilePrefix := "";
    Endpoint := "";
    S3ForcePathStyle := false
  |};
  StartTime := "2021-01-01 00:00";
  EndTime := "2021-01-01 02:00"
|}.

Lemma newS3Reader_then_readAll_witness :
  newS3Reader newClients parseTimeUTC forwardConfig = inr reader /\
  parseTimeUTC (StartTime forwardConfig) "starttime" = inr (startTime reader) /\
  parseTimeUTC (EndTime forwardConfig) "endtime" = inr (endTime reader) /\
  exists k,
    (k <= List.length (schedule reader))%nat /\
    listingCalls (snd (readAll reader neverDone "logs" sink 0%nat)) =
    map (configuredListing forwardConfig "logs") (firstn k (schedule reader)).
Proof.
  assert (Hbuilt : newS3Reader newClients parseTimeUTC forwardConfig = inr reader)
    by reflexivity.
  split; [exact Hbuilt|].
  exact (newS3Reader_then_readAll newClients parseTimeUTC forwardConfig reader
           neverDone "logs" sink 0%nat Hbuilt).
Defined.

Example configured_listings :
  map (configuredListing forwardConfig "logs") (schedule reader) =
  [("bucket", hour00); ("bucket", hour01)].
Proof. reflexivity. Qed.

End Configured.


(* ------------------------------------------------------------------- *)
(** *** A reader with an unknown partition *)
(* ------------------------------------------------------------------- *)

(** The prefix with an empty time key. *)
Definition untimedPrefix {W} (r : s3Reader W) (telemetryType : string) : string :=
  if (s3Prefix r =? "")%string
  then "/" ++ filePrefix r ++ telemetryType ++ "_"
  else s3Prefix r ++ "//" ++ filePrefix r ++ telemetryType ++ "_".

Section UnknownPartition.

Context {W : Type}.
Variable r : s3Reader W.
Variable ctx : Context W.
Variable telemetryType : string.
Variable dataCallback : s3ReaderDataCallback W.


End UnknownPartition.

Module Unpartitioned.

Import Scenario.

(** [Scenario.reader] with a partition that [newS3Reader] would refuse,
    over two minutes. *)
Definition dailyReader : s3Reader World := {|
  listObjectsClient := lister;
  getObjectClient := getter;
  s3Bucket := "bucket";
  s3Prefix := "logs";
  s3Partition := "day";
  filePrefix := "otel_";
  startTime := DateUTC 2021 1 1 0 0;
  endTime := DateUTC 2021 1 1 0 2
|}.

Lemma store_never_fails : NothingFails dailyReader sink.
Proof.
  split; [|split].
  - intros bucket prefix w. cbn. unfold lister.
    destruct (prefix =? hour01)%string; cbn;
      (constructor; [intros w0; now eexists _, _ | constructor]).
  - intros bucket key w. exists body, (S w). split; [reflexivity|].
    intros w2. now exists payload, (S w2).
  - intros key data w. now exists (S w).
Qed.


End Unpartitioned.

End S3Reader.

(* ===================================================================== *)
(** ** The status notifier exercised by [notifications_test.go] *)
(* ===================================================================== *)

Module Notifier.

(** An [error], by its message. The sentinel
    [types.ErrCustomMessagePending] of opamp-go is not one of these: it is
    the [MessagePending] case of [SendResult]. *)
Definition error := string.

(** The channel a pending [SendMessage] hands back. *)
Definition Channel := nat.

(** [pcommon.Value], for the two kinds the notifier stores. *)
Inductive Value :=
| ValueStr (s : string)
| ValueInt (i : Z).

(** [plog.Logs] down to its records. The wire encoding of
    [plog.ProtoMarshaler], which the test undoes with
    [plog.ProtoUnmarshaler], is left out: a message is the [Logs] value
    itself. *)
Record LogRecord := {
  Timestamp : Z;
  Body : Value;
  Attributes : list (string * Value)
}.

Record ScopeLogs := { LogRecords : list LogRecord }.
Record ResourceLogs := { ScopeLogsOf : list ScopeLogs }.
Definition Logs := list ResourceLogs.

(** [attr.Get(key)]. *)
Fixpoint Get (key : string) (attrs : list (string * Value)) : option Value :=
  match attrs with
  | [] => None
  | (k, v) :: more => if (k =? key)%string then Some v else Get key more
  end.

(** [pcommon.NewTimestampFromTime]: the Unix nanoseconds as a [uint64]. *)
Definition NewTimestampFromTime (t : Time) : Z := t mod 2 ^ 64.

(** The conversion [int64(ts)] of a [uint64]. *)
Definition int64 (ts : Z) : Z := (ts + 2 ^ 63) mod 2 ^ 64 - 2 ^ 63.

(** What [SendMessage] returns: [(nil, nil)], a channel with
    [ErrCustomMessagePending], or [(nil, err)] for any other error. *)
Inductive SendResult :=
| Delivered
| MessagePending (ready : Channel)
| SendFailed (err : error).

(** The part of [opampcustommessages.CustomCapabilityHandler] the notifier
    and the test use. *)
Class CustomCapabilityHandler (H : Type) := {
  SendMessage : string -> Logs -> H -> SendResult * H;
  Unregister : H -> H
}.

(** *** The mock registry of the test *)

Record customMessage := {
  messageType : string;
  message : Logs
}.

(** [shouldReturnPending] is a closure over a counter of its own calls: it
    is kept as a function of that counter, [pendingAsked]. *)
Record mockCustomCapabilityRegistry := {
  shouldFailRegister : bool;
  shouldReturnPending : option (nat -> bool);
  pendingAsked : nat;
  shouldFailSend : bool;
  sendMessageCalls : nat;
  pendingChannel : Channel;
  unregisterCalled : bool;
  sentMessages : list customMessage
}.

Definition countCall (m : mockCustomCapabilityRegistry) :=
  {| shouldFailRegister := shouldFailRegister m;
     shouldReturnPending := shouldReturnPending m;
     pendingAsked := pendingAsked m;
     shouldFailSend := shouldFailSend m;
     sendMessageCalls := S (sendMessageCalls m);
     pendingChannel := pendingChannel m;
     unregisterCalled := unregisterCalled m;
     sentMessages := sentMessages m |}.

Definition countAsked (m : mockCustomCapabilityRegistry) :=
  {| shouldFailRegister := shouldFailRegister m;
     shouldReturnPending := shouldReturnPending m;
     pendingAsked := S (pendingAsked m);
     shouldFailSend := shouldFailSend m;
     sendMessageCalls := sendMessageCalls m;
     pendingChannel := pendingChannel m;
     unregisterCalled := unregisterCalled m;
     sentMessages := sentMessages m |}.

Definition appendSent (msg : customMessage) (m : mockCustomCapabilityRegistry) :=
  {| shouldFailRegister := shouldFailRegister m;
     shouldReturnPending := shouldReturnPending m;
     pendingAsked := pendingAsked m;
     shouldFailSend := shouldFailSend m;
     sendMessageCalls := sendMessageCalls m;
     pendingChannel := pendingChannel m;
     unregisterCalled := unregisterCalled m;
     sentMessages := (sentMessages m ++ [msg])%list |}.

(** [mockCustomCapabilityRegistry.SendMessage]. *)
Definition mockSendMessage (messageType : string) (message : Logs)
    (m : mockCustomCapabilityRegistry) : SendResult * mockCustomCapabilityRegistry :=
  let m := countCall m in
  if unregisterCalled m then (SendFailed "unregister called", m)
  else
    let '(pending, m) :=
      match shouldReturnPending m with
      | Some f => (f (pendingAsked m), countAsked m)
      | None => (false, m)
      end in
    if pending then (MessagePending (pendingChannel m), m)
    else if shouldFailSend m then (SendFailed "send failed", m)
    else (Delivered,
          appendSent {| messageType := messageType; message := message |} m).

(** [mockCustomCapabilityRegistry.Unregister]. *)
Definition mockUnregister (m : mockCustomCapabilityRegistry) :=
  {| shouldFailRegister := shouldFailRegister m;
     shouldReturnPending := shouldReturnPending m;
     pendingAsked := pendingAsked m;
     shouldFailSend := shouldFailSend m;
     sendMessageCalls := sendMessageCalls m;
     pendingChannel := pendingChannel m;
     unregisterCalled := true;
     sentMessages := sentMessages m |}.

#[export] Instance mockHandler : CustomCapabilityHandler mockCustomCapabilityRegistry :=
  {| SendMessage := mockSendMessage; Unregister := mockUnregister |}.

(** *** The notifier *)

(** The status values of a notification. *)
Inductive ingestStatus :=
| IngestStatusNotStarted
| IngestStatusIngesting
| IngestStatusCompleted
| IngestStatusFailed.

Definition isFailed (st : ingestStatus) : bool :=
  match st with IngestStatusFailed => true | _ => false end.

Record statusNotification := {
  TelemetryType : string;
  IngestStatus : ingestStatus;
  IngestTime : Time;
  StartTime : Time;
  EndTime : Time;
  FailureMessage : string
}.

(** What the notifier writes to its logger. *)
Inductive LogEntry :=
| LogSendFailed (err : error)
| LogAttemptsExhausted.

(** What a call of [SendStatus] does, in order: a submission with its
    result, a blocking receive on a readiness channel, a log entry. *)
Inductive Event :=
| EvSendMessage (messageType : string) (message : Logs) (result : SendResult)
| EvAwait (ready : Channel)
| EvLog (entry : LogEntry).

(** The message-type tag, as the test reads it back. *)
Definition statusMessageType : string := "TimeBasedIngestStatus".

(** The submissions of a trace, and those that were delivered. *)
Definition submissions (evs : list Event) : list (string * Logs * SendResult) :=
  flat_map (fun ev => match ev with
                      | EvSendMessage t m res => [(t, m, res)]
                      | _ => []
                      end) evs.

Definition delivered (evs : list Event) : list (string * Logs) :=
  flat_map (fun ev => match ev with
                      | EvSendMessage t m Delivered => [(t, m)]
                      | _ => []
                      end) evs.

Section SendStatus.

(** The text of a status value and the bound on attempts are constants of
    [notifications.go]; they are taken as given. *)
Variable statusName : ingestStatus -> string.
Variable maxNotificationAttempts : nat.

Context {H : Type} `{CustomCapabilityHandler H}.

(** Modelled from the spec: [notifications.go] is not among the sources.
    The record of a notification: timestamp the ingest time, body the
    marker "status", attributes [telemetry_type], [ingest_status],
    [start_time] and [end_time] (integer timestamps), and [failure_message]
    only when the status is Failed. *)
Definition statusLogRecord (n : statusNotification) : LogRecord := {|
  Timestamp := NewTimestampFromTime (IngestTime n);
  Body := ValueStr "status";
  Attributes :=
    [("telemetry_type", ValueStr (TelemetryType n));
     ("ingest_status", ValueStr (statusName (IngestStatus n)));
     ("start_time", ValueInt (int64 (NewTimestampFromTime (StartTime n))));
     ("end_time", ValueInt (int64 (NewTimestampFromTime (EndTime n))))]
    ++ (if isFailed (IngestStatus n)
        then [("failure_message", ValueStr (FailureMessage n))]
        else [])
|}.

(** Modelled from the spec: [notifications.go] is not among the sources.
    A notification is serialized into exactly one log record. *)
Definition statusLogs (n : statusNotification) : Logs :=
  [{| ScopeLogsOf := [{| LogRecords := [statusLogRecord n] |}] |}].

(** Modelled from the spec: [notifications.go] is not among the sources.
    The retry loop of [sendStatus] with [attempts] attempts left: delivered,
    return; pending, block on the readiness channel and try again; a hard
    error, log it and drop the notification; no attempt left, log that the
    budget is exhausted. *)
Fixpoint sendAttempts (attempts : nat) (message : Logs) (h : H)
    : H * list Event :=
  match attempts with
  | O => (h, [EvLog LogAttemptsExhausted])
  | S remaining =>
      let '(result, h1) := SendMessage statusMessageType message h in
      let sent := EvSendMessage statusMessageType message result in
      match result with
      | Delivered => (h1, [sent])
      | MessagePending ready =>
          let '(h2, evs) := sendAttempts remaining message h1 in
          (h2, sent :: EvAwait ready :: evs)
      | SendFailed err => (h1, [sent; EvLog (LogSendFailed err)])
      end
  end.

(** Modelled from the spec: [notifications.go] is not among the sources.
    [SendStatus] returns nothing to its caller; what is left of a call is
    the state of the handler and the trace. *)
Definition SendStatus (n : statusNotification) (h : H) : H * list Event :=
  sendAttempts maxNotificationAttempts (statusLogs n) h.

(** The handler answers pending to each of the next [k] submissions of
    [message]. *)
Fixpoint pendingFor (k : nat) (message : Logs) (h : H) : Prop :=
  match k with
  | O => True
  | S k' =>
      exists ready h1,
        SendMessage statusMessageType message h = (MessagePending ready, h1) /\
        pendingFor k' message h1
  end.

End SendStatus.

(** The trace of [k] submissions that were all answered pending, each one
    followed by the wait for its readiness channel. *)
Definition pendingRounds (message : Logs) (readies : list Channel) : list Event :=
  flat_map (fun ready =>
              [EvSendMessage statusMessageType message (MessagePending ready);
               EvAwait ready]) readies.

(* ------------------------------------------------------------------- *)
(** *** Facts about the notifier *)
(* ------------------------------------------------------------------- *)

Lemma int64_NewTimestampFromTime t :
  - 2 ^ 63 <= t < 2 ^ 63 -> int64 (NewTimestampFromTime t) = t.
Proof.
  intros Ht. unfold int64, NewTimestampFromTime.
  change (2 ^ 64) with 18446744073709551616 in *.
  change (2 ^ 63) with 9223372036854775808 in *.
  Z.div_mod_to_equations. lia.
Qed.

Lemma submissions_pendingRounds message readies :
  submissions (pendingRounds message readies) =
  map (fun ready => (statusMessageType, message, MessagePending ready)) readies.
Proof.
  induction readies as [|ready more IH]; [reflexivity|].
  unfold submissions, pendingRounds in *. simpl. now rewrite IH.
Qed.

Lemma delivered_pendingRounds message readies :
  delivered (pendingRounds message readies) = [].
Proof.
  induction readies as [|ready more IH]; [reflexivity|].
  unfold delivered, pendingRounds in *. simpl. now rewrite IH.
Qed.

Section SendStatusFacts.

Variable statusName : ingestStatus -> string.
Variable maxNotificationAttempts : nat.
Context {H : Type} `{CustomCapabilityHandler H}.

(** C7. When the first submission is delivered, [SendStatus] makes that one
    submission and nothing else: one message under the tag
    "TimeBasedIngestStatus", holding exactly one log record, whose timestamp
    is the ingest time, whose body is "status", and whose attributes are
    [telemetry_type] and [ingest_status] (strings), [start_time] and
    [end_time] (the epoch nanoseconds as int64), and [failure_message]
    exactly when the status is Failed. *)
Theorem SendStatus_delivered (n : statusNotification) (h h1 : H) :
  (0 < maxNotificationAttempts)%nat ->
  SendMessage statusMessageType (statusLogs statusName n) h = (Delivered, h1) ->
  SendStatus statusName maxNotificationAttempts n h =
    (h1, [EvSendMessage statusMessageType (statusLogs statusName n) Delivered]) /\
  statusMessageType = "TimeBasedIngestStatus" /\
  exists record,
    statusLogs statusName n = [{| ScopeLogsOf := [{| LogRecords := [record] |}] |}] /\
    Timestamp record = NewTimestampFromTime (IngestTime n) /\
    Body record = ValueStr "status" /\
    map fst (Attributes record) =
      (["telemetry_type"; "ingest_status"; "start_time"; "end_time"] ++
       (if isFailed (IngestStatus n) then ["failure_message"] else []))%list /\
    Get "telemetry_type" (Attributes record) = Some (ValueStr (TelemetryType n)) /\
    Get "ingest_status" (Attributes record) =
      Some (ValueStr (statusName (IngestStatus n))) /\
    Get "start_time" (Attributes record) =
      Some (ValueInt (int64 (NewTimestampFromTime (StartTime n)))) /\
    Get "end_time" (Attributes record) =
      Some (ValueInt (int64 (NewTimestampFromTime (EndTime n)))) /\
    (- 2 ^ 63 <= StartTime n < 2 ^ 63 ->
     Get "start_time" (Attributes record) = Some (ValueInt (StartTime n))) /\
    (- 2 ^ 63 <= EndTime n < 2 ^ 63 ->
     Get "end_time" (Attributes record) = Some (ValueInt (EndTime n))) /\
    ((exists v, Get "failure_message" (Attributes record) = Some v) <->
     IngestStatus n = IngestStatusFailed) /\
    (IngestStatus n = IngestStatusFailed ->
     Get "failure_message" (Attributes record) = Some (ValueStr (FailureMessage n))).
Proof.
  intros Hmax Hsend. split; [|split; [reflexivity|]].
  - unfold SendStatus. destruct maxNotificationAttempts as [|k]; [lia|].
    cbn [sendAttempts]. now rewrite Hsend.
  - exists (statusLogRecord statusName n).
    split; [reflexivity|]. split; [reflexivity|]. split; [reflexivity|].
    unfold statusLogRecord. cbn [Attributes].
    split; [now destruct (IngestStatus n)|].
    do 4 (split; [reflexivity|]).
    split; [intros Hs; cbn; now rewrite int64_NewTimestampFromTime|].
    split; [intros He; cbn; now rewrite int64_NewTimestampFromTime|].
    split.
    + destruct (IngestStatus n); cbn; split;
        solve [intros [v Hv]; discriminate | discriminate | reflexivity
              | intros _; eexists; reflexivity].
    + intros ->. reflexivity.
Qed.

Lemma sendAttempts_pending k : forall message h,
  pendingFor k message h ->
  exists readies,
    List.length readies = k /\
    snd (sendAttempts k message h) =
      (pendingRounds message readies ++ [EvLog LogAttemptsExhausted])%list.
Proof.
  induction k as [|k IH]; intros message h Hp.
  - now exists [].
  - destruct Hp as (ready & h1 & Hsend & Hp). cbn [sendAttempts].
    rewrite Hsend. destruct (IH message h1 Hp) as (readies & Hlen & Hevs).
    destruct (sendAttempts k message h1) as [h2 evs]. simpl in *.
    exists (ready :: readies). split; [simpl; now rewrite Hlen|].
    now rewrite Hevs.
Qed.

(** C8. When the handler answers pending to every submission, [SendStatus]
    submits exactly [maxNotificationAttempts] times, waits on the readiness
    channel it was handed after each of them, then logs that the attempts
    are exhausted and returns; nothing was delivered. *)
Theorem SendStatus_always_pending (n : statusNotification) (h : H) :
  pendingFor maxNotificationAttempts (statusLogs statusName n) h ->
  exists readies,
    List.length readies = maxNotificationAttempts /\
    snd (SendStatus statusName maxNotificationAttempts n h) =
      (pendingRounds (statusLogs statusName n) readies ++
       [EvLog LogAttemptsExhausted])%list /\
    List.length (submissions (snd (SendStatus statusName maxNotificationAttempts n h)))
      = maxNotificationAttempts /\
    delivered (snd (SendStatus statusName maxNotificationAttempts n h)) = [].
Proof.
  intros Hp. unfold SendStatus.
  destruct (sendAttempts_pending _ _ _ Hp) as (readies & Hlen & Hevs).
  exists readies. rewrite Hevs. repeat split; trivial.
  - unfold submissions. rewrite flat_map_app. fold (submissions (pendingRounds
      (statusLogs statusName n) readies)).
    rewrite submissions_pendingRounds, length_app, length_map. simpl. lia.
  - unfold delivered. rewrite flat_map_app.
    fold (delivered (pendingRounds (statusLogs statusName n) readies)).
    now rewrite delivered_pendingRounds.
Qed.

(** C9. When the first submission fails with a hard error, [SendStatus]
    logs that error and returns after this one submission: no wait, no
    second attempt, nothing delivered, and nothing for the caller to see
    but the trace. *)
Theorem SendStatus_hard_error (n : statusNotification) (h h1 : H) err :
  (0 < maxNotificationAttempts)%nat ->
  SendMessage statusMessageType (statusLogs statusName n) h = (SendFailed err, h1) ->
  SendStatus statusName maxNotificationAttempts n h =
    (h1, [EvSendMessage statusMessageType (statusLogs statusName n) (SendFailed err);
          EvLog (LogSendFailed err)]) /\
  List.length (submissions (snd (SendStatus statusName maxNotificationAttempts n h)))
    = 1%nat /\
  delivered (snd (SendStatus statusName maxNotificationAttempts n h)) = [].
Proof.
  intros Hmax Hsend.
  assert (Hrun : SendStatus statusName maxNotificationAttempts n h =
    (h1, [EvSendMessage statusMessageType (statusLogs statusName n) (SendFailed err);
          EvLog (LogSendFailed err)])).
  { unfold SendStatus. destruct maxNotificationAttempts as [|k]; [lia|].
    cbn [sendAttempts]. now rewrite Hsend. }
  rewrite Hrun. repeat split.
Qed.

End SendStatusFacts.

(* ------------------------------------------------------------------- *)
(** *** The cases of [notifications_test.go] *)
(* ------------------------------------------------------------------- *)

Module Tests.

(** Texts for the status values and a bound of three attempts, for the
    examples only. *)
Definition statusText (st : ingestStatus) : string :=
  match st with
  | IngestStatusNotStarted => "not_started"
  | IngestStatusIngesting => "ingesting"
  | IngestStatusCompleted => "completed"
  | IngestStatusFailed => "failed"
  end.

Definition threeAttempts : nat := 3.

(** [mockCustomCapabilityRegistry{}]. *)
Definition registry : mockCustomCapabilityRegistry := {|
  shouldFailRegister := false;
  shouldReturnPending := None;
  pendingAsked := 0;
  shouldFailSend := false;
  sendMessageCalls := 0;
  pendingChannel := 0%nat;
  unregisterCalled := false;
  sentMessages := []
|}.

Definition withPending (f : nat -> bool) : mockCustomCapabilityRegistry := {|
  shouldFailRegister := false;
  shouldReturnPending := Some f;
  pendingAsked := 0;
  shouldFailSend := false;
  sendMessageCalls := 0;
  pendingChannel := 7%nat;
  unregisterCalled := false;
  sentMessages := []
|}.

Definition failingSend : mockCustomCapabilityRegistry := {|
  shouldFailRegister := false;
  shouldReturnPending := None;
  pendingAsked := 0;
  shouldFailSend := true;
  sendMessageCalls := 0;
  pendingChannel := 0%nat;
  unregisterCalled := false;
  sentMessages := []
|}.

Definition ingestTime : Time := DateUTC 2021 1 1 0 0.

Definition toSend : statusNotification := {|
  TelemetryType := "telemetry";
  IngestStatus := IngestStatusIngesting;
  IngestTime := ingestTime;
  StartTime := ingestTime;
  EndTime := ingestTime;
  FailureMessage := ""
|}.

Definition failedToSend : statusNotification := {|
  TelemetryType := "telemetry";
  IngestStatus := IngestStatusFailed;
  IngestTime := ingestTime;
  StartTime := ingestTime;
  EndTime := ingestTime;
  FailureMessage := "access denied"
|}.

Definition sentLogs : Logs := statusLogs statusText toSend.

(** The registry after one delivered submission. *)
Definition registryDelivered : mockCustomCapabilityRegistry :=
  appendSent {| messageType := statusMessageType; message := sentLogs |}
    (countCall registry).

Lemma SendStatus_delivered_witness :
  (0 < threeAttempts)%nat /\
  SendMessage statusMessageType sentLogs registry =
    (Delivered, registryDelivered) /\
  SendStatus statusText threeAttempts toSend registry =
    (registryDelivered, [EvSendMessage statusMessageType sentLogs Delivered]) /\
  exists record,
    sentLogs = [{| ScopeLogsOf := [{| LogRecords := [record] |}] |}] /\
    Timestamp record = 1609459200000000000 /\
    Body record = ValueStr "status" /\
    Get "start_time" (Attributes record) = Some (ValueInt 1609459200000000000) /\
    Get "failure_message" (Attributes record) = None.
Proof.
  assert (Hmax : (0 < threeAttempts)%nat) by (unfold threeAttempts; lia).
  assert (Hsend : SendMessage statusMessageType sentLogs registry =
                   (Delivered, registryDelivered)) by reflexivity.
  split; [exact Hmax|]. split; [exact Hsend|].
  destruct (SendStatus_delivered statusText threeAttempts toSend registry
              registryDelivered Hmax Hsend) as (Hrun & _ & record & Hlogs & Hts & Hbody & _).
  split; [exact Hrun|].
  exists record. split; [exact Hlogs|].
  injection Hlogs as <-. repeat split.
Defined.

Example Test_opampNotifier_SendStatus :
  let registry' := fst (SendStatus statusText threeAttempts toSend registry) in
  sentMessages registry' =
    [{| messageType := "TimeBasedIngestStatus"; message := sentLogs |}] /\
  sendMessageCalls registry' = 1%nat.
Proof. split; reflexivity. Qed.

Example failed_status_carries_message :
  Get "failure_message" (Attributes (statusLogRecord statusText failedToSend))
  = Some (ValueStr "access denied").
Proof. reflexivity. Qed.

Example Test_opampNotifier_SendStatus_MessagePending :
  let '(registry', evs) :=
    SendStatus statusText threeAttempts toSend
      (withPending (fun tryCount => (tryCount <? 1)%nat)) in
  evs = [EvSendMessage statusMessageType sentLogs (MessagePending 7%nat);
         EvAwait 7%nat;
         EvSendMessage statusMessageType sentLogs Delivered] /\
  List.length (sentMessages registry') = 1%nat.
Proof. split; reflexivity. Qed.

Lemma SendStatus_always_pending_witness :
  pendingFor threeAttempts sentLogs (withPending (fun _ => true)) /\
  snd (SendStatus statusText threeAttempts toSend (withPending (fun _ => true))) =
    (pendingRounds sentLogs [7; 7; 7]%nat ++ [EvLog LogAttemptsExhausted])%list /\
  List.length (submissions
    (snd (SendStatus statusText threeAttempts toSend (withPending (fun _ => true)))))
    = threeAttempts /\
  delivered
    (snd (SendStatus statusText threeAttempts toSend (withPending (fun _ => true))))
    = [].
Proof.
  assert (Hp : pendingFor threeAttempts sentLogs (withPending (fun _ => true))).
  { cbn [pendingFor threeAttempts].
    do 3 (eexists; eexists; split; [reflexivity|]). exact I. }
  split; [exact Hp|].
  destruct (SendStatus_always_pending statusText threeAttempts toSend
              (withPending (fun _ => true)) Hp)
    as (readies & _ & _ & Hcount & Hnone).
  split; [reflexivity|]. split; [exact Hcount | exact Hnone].
Defined.

Example Test_opampNotifier_SendStatus_MaxRetries :
  let registry' :=
    fst (SendStatus statusText threeAttempts toSend (withPending (fun _ => true))) in
  sentMessages registry' = [] /\ sendMessageCalls registry' = threeAttempts.
Proof. split; reflexivity. Qed.

Lemma SendStatus_hard_error_witness :
  (0 < threeAttempts)%nat /\
  SendMessage statusMessageType sentLogs failingSend =
    (SendFailed "send failed", countCall failingSend) /\
  SendStatus statusText threeAttempts toSend failingSend =
    (countCall failingSend,
     [EvSendMessage statusMessageType sentLogs (SendFailed "send failed");
      EvLog (LogSendFailed "send failed")]) /\
  List.length (submissions
    (snd (SendStatus statusText threeAttempts toSend failingSend))) = 1%nat /\
  delivered (snd (SendStatus statusText threeAttempts toSend failingSend)) = [].
Proof.
  assert (Hmax : (0 < threeAttempts)%nat) by (unfold threeAttempts; lia).
  assert (Hsend : SendMessage statusMessageType sentLogs failingSend =
                   (SendFailed "send failed", countCall failingSend))
    by reflexivity.
  split; [exact Hmax|]. split; [exact Hsend|].
  exact (SendStatus_hard_error statusText threeAttempts toSend failingSend
           (countCall failingSend) "send failed" Hmax Hsend).
Defined.

Example Test_opampNotifier_SendStatus_Error :
  let registry' :=
    fst (SendStatus statusText threeAttempts toSend failingSend) in
  sentMessages registry' = [] /\ sendMessageCalls registry' = 1%nat.
Proof. split; reflexivity. Qed.

End Tests.


(* ------------------------------------------------------------------- *)
(** *** The mock registry over a sequence of calls *)
(* ------------------------------------------------------------------- *)

(** Calls of [SendMessage] one after the other, with the results in
    order. *)
Fixpoint sendMessages (msgs : list customMessage) (m : mockCustomCapabilityRegistry)
    : list SendResult * mockCustomCapabilityRegistry :=
  match msgs with
  | [] => ([], m)
  | msg :: more =>
      let '(res, m1) := mockSendMessage (messageType msg) (message msg) m in
      let '(ress, m2) := sendMessages more m1 in
      (res :: ress, m2)
  end.

(** The messages whose result is [(nil, nil)]. *)
Definition deliveredOf (msgs : list customMessage) (ress : list SendResult)
    : list customMessage :=
  flat_map (fun p => match snd p with Delivered => [fst p] | _ => [] end)
           (combine msgs ress).

(** The answer of the closure [shouldReturnPending] to its [i]-th call from
    now; no closure, no pending. *)
Definition askPending (m : mockCustomCapabilityRegistry) (i : nat) : bool :=
  match shouldReturnPending m with
  | Some f => f (pendingAsked m + i)%nat
  | None => false
  end.

(** What a registered mock answers to its [i]-th call from now. *)
Definition mockAnswer (m : mockCustomCapabilityRegistry) (i : nat) : SendResult :=
  if askPending m i then MessagePending (pendingChannel m)
  else if shouldFailSend m then SendFailed "send failed"
  else Delivered.

(** The settings of the mock, which no call of [SendMessage] touches. *)
Definition sameSettings (m m' : mockCustomCapabilityRegistry) : Prop :=
  shouldFailRegister m' = shouldFailRegister m /\
  shouldReturnPending m' = shouldReturnPending m /\
  shouldFailSend m' = shouldFailSend m /\
  pendingChannel m' = pendingChannel m /\
  unregisterCalled m' = unregisterCalled m.

Lemma mockSendMessage_effect messageType0 message0 m :
  let res := fst (mockSendMessage messageType0 message0 m) in
  let m' := snd (mockSendMessage messageType0 message0 m) in
  sameSettings m m' /\
  sendMessageCalls m' = S (sendMessageCalls m) /\
  sentMessages m' =
    (sentMessages m ++
     match res with
     | Delivered => [{| messageType := messageType0; message := message0 |}]
     | _ => []
     end)%list /\
  res = (if unregisterCalled m then SendFailed "unregister called"
         else mockAnswer m 0) /\
  pendingAsked m' =
    (if unregisterCalled m then pendingAsked m
     else match shouldReturnPending m with
          | Some _ => S (pendingAsked m)
          | None => pendingAsked m
          end).
Proof.
  unfold mockSendMessage, mockAnswer, askPending, sameSettings.
  destruct m as [fr rp asked fs calls ch unreg sent]; cbn.
  destruct unreg; cbn.
  - rewrite List.app_nil_r. repeat split.
  - destruct rp as [f|]; cbn.
    + rewrite Nat.add_0_r. destruct (f asked); cbn.
      * rewrite List.app_nil_r. repeat split.
      * destruct fs; cbn; [rewrite List.app_nil_r|]; repeat split.
    + destruct fs; cbn; [rewrite List.app_nil_r|]; repeat split.
Qed.

Lemma sendMessages_cons msg more m :
  sendMessages (msg :: more) m =
  (fst (mockSendMessage (messageType msg) (message msg) m)
     :: fst (sendMessages more
               (snd (mockSendMessage (messageType msg) (message msg) m))),
   snd (sendMessages more
          (snd (mockSendMessage (messageType msg) (message msg) m)))).
Proof.
  cbn [sendMessages].
  destruct (mockSendMessage (messageType msg) (message msg) m) as [res m1].
  cbn [fst snd]. now destruct (sendMessages more m1).
Qed.

(** X14. The mock counts every call of [SendMessage] and records exactly
    the messages it accepted: after any sequence of calls, from any state,
    [sendMessageCalls] has grown by the number of calls, [sentMessages] is
    what it was followed by the messages answered [(nil, nil)], in the
    order of the calls, and the settings of the mock are what they were. *)
Theorem mock_counts_and_records msgs m :
  let ress := fst (sendMessages msgs m) in
  let m' := snd (sendMessages msgs m) in
  List.length ress = List.length msgs /\
  sendMessageCalls m' = (sendMessageCalls m + List.length msgs)%nat /\
  sentMessages m' = (sentMessages m ++ deliveredOf msgs ress)%list /\
  sameSettings m m'.
Proof.
  cbv zeta. revert m.
  induction msgs as [|msg more IH]; intros m.
  - cbn. rewrite Nat.add_0_r, List.app_nil_r. unfold sameSettings. repeat split.
  - rewrite sendMessages_cons. cbn [fst snd List.length].
    destruct (mockSendMessage_effect (messageType msg) (message msg) m)
      as (Hset & Hcalls & Hsent & _).
    cbv zeta in Hset, Hcalls, Hsent.
    specialize (IH (snd (mockSendMessage (messageType msg) (message msg) m))).
    destruct IH as (Hlen & Hcalls' & Hsent' & Hset').
    split; [now rewrite Hlen|].
    split; [rewrite Hcalls', Hcalls; lia|].
    split.
    + rewrite Hsent', Hsent, <- List.app_assoc. f_equal.
      unfold deliveredOf. cbn [combine flat_map fst snd].
      destruct msg as [t b]. cbn [messageType message].
      now destruct (fst (mockSendMessage t b m)).
    + unfold sameSettings in *.
      destruct Hset as (H1 & H2 & H3 & H4 & H5).
      destruct Hset' as (H1' & H2' & H3' & H4' & H5').
      repeat split; congruence.
Qed.

(** X15. [Unregister] is final: once it has been called, from any state and
    whatever the other settings, every later [SendMessage] fails with
    "unregister called", nothing is recorded and the closure
    [shouldReturnPending] is not consulted, while the calls are still
    counted; a second [Unregister] changes nothing. *)
Theorem mock_unregister_is_final msgs m :
  let ress := fst (sendMessages msgs (mockUnregister m)) in
  let m' := snd (sendMessages msgs (mockUnregister m)) in
  ress = repeat (SendFailed "unregister called") (List.length msgs) /\
  sentMessages m' = sentMessages m /\
  pendingAsked m' = pendingAsked m /\
  sendMessageCalls m' = (sendMessageCalls m + List.length msgs)%nat /\
  unregisterCalled m' = true /\
  mockUnregister (mockUnregister m) = mockUnregister m.
Proof.
  cbv zeta.
  assert (Hgen : forall m0, unregisterCalled m0 = true ->
            fst (sendMessages msgs m0) =
              repeat (SendFailed "unregister called") (List.length msgs) /\
            sentMessages (snd (sendMessages msgs m0)) = sentMessages m0 /\
            pendingAsked (snd (sendMessages msgs m0)) = pendingAsked m0 /\
            sendMessageCalls (snd (sendMessages msgs m0)) =
              (sendMessageCalls m0 + List.length msgs)%nat /\
            unregisterCalled (snd (sendMessages msgs m0)) = true).
  { induction msgs as [|msg more IH]; intros m0 Hun.
    - cbn. rewrite Nat.add_0_r. repeat split; assumption.
    - rewrite sendMessages_cons. cbn [fst snd List.length repeat].
      destruct (mockSendMessage_effect (messageType msg) (message msg) m0)
        as (Hset & Hcalls & Hsent & Hres & Hasked).
      cbv zeta in Hset, Hcalls, Hsent, Hres, Hasked.
      rewrite Hun in Hres, Hasked. rewrite Hres in Hsent.
      rewrite List.app_nil_r in Hsent.
      destruct Hset as (_ & _ & _ & _ & Hun').
      rewrite Hun in Hun'.
      destruct (IH _ Hun') as (Hr & Hs & Ha & Hc & Hu).
      rewrite Hres, Hr, Hs, Hsent, Ha, Hasked, Hc, Hcalls, Hu.
      repeat split. lia. }
  destruct (Hgen (mockUnregister m) eq_refl) as (Hr & Hs & Ha & Hc & Hu).
  repeat split; assumption.
Qed.

(** X16. While [Unregister] has not been called, the results of a sequence
    of calls are decided call by call: the closure [shouldReturnPending],
    when there is one, is consulted exactly once per call and a true answer
    gives the pending error with the mock's channel, before
    [shouldFailSend] is looked at; otherwise [shouldFailSend] gives "send
    failed"; otherwise the message is accepted. *)
Theorem mock_decides_call_by_call msgs m :
  unregisterCalled m = false ->
  let ress := fst (sendMessages msgs m) in
  let m' := snd (sendMessages msgs m) in
  ress = map (mockAnswer m) (seq 0 (List.length msgs)) /\
  pendingAsked m' =
    match shouldReturnPending m with
    | Some _ => (pendingAsked m + List.length msgs)%nat
    | None => pendingAsked m
    end.
Proof.
  cbv zeta. revert m.
  induction msgs as [|msg more IH]; intros m Hun.
  - cbn. split; [reflexivity|].
    destruct (shouldReturnPending m); [now rewrite Nat.add_0_r | reflexivity].
  - rewrite sendMessages_cons. cbn [fst snd List.length seq map].
    destruct (mockSendMessage_effect (messageType msg) (message msg) m)
      as (Hset & _ & _ & Hres & Hasked).
    cbv zeta in Hset, Hres, Hasked.
    rewrite Hun in Hres, Hasked.
    destruct Hset as (_ & Hrp & Hfs & Hch & Hun').
    rewrite Hun in Hun'.
    destruct (IH _ Hun') as (Hr & Ha).
    rewrite Hres, Hr, Ha, Hrp. split.
    + f_equal. rewrite <- seq_shift, map_map.
      apply map_ext. intros i.
      unfold mockAnswer, askPending. rewrite Hrp, Hfs, Hch, Hasked.
      destruct (shouldReturnPending m); [|reflexivity].
      now replace (S (pendingAsked m) + i)%nat with (pendingAsked m + S i)%nat by lia.
    + rewrite Hasked. destruct (shouldReturnPending m); [lia | reflexivity].
Qed.

(* ------------------------------------------------------------------- *)
(** *** The notifier against the mock registry *)
(* ------------------------------------------------------------------- *)

(** The channels a trace waits on, in order. *)
Definition awaits (evs : list Event) : list Channel :=
  flat_map (fun ev => match ev with EvAwait ready => [ready] | _ => [] end) evs.

Lemma askPending_after_pending t msg m :
  unregisterCalled m = false ->
  askPending m 0 = true ->
  let m1 := snd (mockSendMessage t msg m) in
  fst (mockSendMessage t msg m) = MessagePending (pendingChannel m) /\
  unregisterCalled m1 = false /\
  shouldFailSend m1 = shouldFailSend m /\
  pendingChannel m1 = pendingChannel m /\
  sendMessageCalls m1 = S (sendMessageCalls m) /\
  sentMessages m1 = sentMessages m /\
  forall i, askPending m1 i = askPending m (S i).
Proof.
  intros Hun Hp. cbv zeta.
  destruct (mockSendMessage_effect t msg m)
    as ((_ & Hrp & Hfs & Hch & Hun') & Hcalls & Hsent & Hres & Hasked).
  cbv zeta in Hrp, Hfs, Hch, Hun', Hcalls, Hsent, Hres, Hasked.
  rewrite Hun in Hres, Hasked, Hun'.
  unfold mockAnswer in Hres. rewrite Hp in Hres.
  rewrite Hres in Hsent. rewrite List.app_nil_r in Hsent.
  repeat split; try assumption.
  intros i. unfold askPending in *. rewrite Hrp, Hasked.
  destruct (shouldReturnPending m); [|discriminate].
  now replace (S (pendingAsked m) + i)%nat with (pendingAsked m + S i)%nat by lia.
Qed.

Lemma sendAttempts_on_mock message k : forall attempts m,
  unregisterCalled m = false ->
  (k <= attempts)%nat ->
  (forall i, (i < k)%nat -> askPending m i = true) ->
  ((k < attempts)%nat -> askPending m k = false) ->
  sendMessageCalls (fst (sendAttempts attempts message m)) =
    (sendMessageCalls m + Nat.min (S k) attempts)%nat /\
  sentMessages (fst (sendAttempts attempts message m)) =
    (sentMessages m ++
     if (k <? attempts)%nat && negb (shouldFailSend m)
     then [{| messageType := statusMessageType; message := message |}]
     else [])%list /\
  awaits (snd (sendAttempts attempts message m)) = repeat (pendingChannel m) k.
Proof.
  induction k as [|k IH]; intros attempts m Hun Hle Hpend Hlast.
  - destruct attempts as [|a].
    + cbn. now rewrite Nat.add_0_r, List.app_nil_r.
    + assert (Hp : askPending m 0 = false) by (apply Hlast; lia).
      cbn [sendAttempts SendMessage mockHandler].
      destruct (mockSendMessage_effect statusMessageType message m)
        as (_ & Hcalls & Hsent & Hres & _).
      cbv zeta in Hcalls, Hsent, Hres.
      rewrite Hun in Hres. unfold mockAnswer in Hres. rewrite Hp in Hres.
      destruct (mockSendMessage statusMessageType message m) as [res m1].
      cbn [fst snd] in Hcalls, Hsent, Hres. subst res.
      change (0 <? S a)%nat with true. cbn [andb].
      replace (Nat.min 1 (S a)) with 1%nat by lia.
      destruct (shouldFailSend m); cbn [fst snd negb awaits flat_map app repeat];
        rewrite Hcalls, Hsent; (split; [lia|]); split; reflexivity.
  - destruct attempts as [|a]; [lia|].
    assert (Hp : askPending m 0 = true) by (apply Hpend; lia).
    cbn [sendAttempts SendMessage mockHandler].
    destruct (askPending_after_pending statusMessageType message m Hun Hp)
      as (Hres & Hun1 & Hfs & Hch & Hcalls & Hsent & Hask).
    cbv zeta in Hun1, Hfs, Hch, Hcalls, Hsent, Hask.
    destruct (mockSendMessage statusMessageType message m) as [res m1].
    cbn [fst snd] in Hres, Hun1, Hfs, Hch, Hcalls, Hsent, Hask. subst res.
    destruct (IH a m1 Hun1) as (Hc & Hs & Ha).
    + lia.
    + intros i Hi. rewrite Hask. apply Hpend. lia.
    + intros Hk. rewrite Hask. apply Hlast. lia.
    + destruct (sendAttempts a message m1) as [m2 evs].
      cbn [fst snd] in Hc, Hs, Ha |- *.
      rewrite Hc, Hs, Hcalls, Hsent, Hfs.
      split; [lia|]. split.
      * change (S k <? S a)%nat with (k <? a)%nat. reflexivity.
      * cbn [awaits flat_map app repeat]. fold (awaits evs).
        now rewrite Ha, Hch.
Qed.

Section SendStatusOnMock.

Variable statusName : ingestStatus -> string.
Variable maxNotificationAttempts : nat.

(** X17. [SendStatus] against the mock registry of the test, for any
    notification and any bound on the attempts. Modelled from the spec as
    far as [SendStatus] goes; the mock is the code of the test. When the
    registry answers pending to the first [k] submissions and then no
    more, the notifier waits [k] times on the registry's channel, calls
    [SendMessage] [k + 1] times (never more than the bound) and leaves
    exactly one message in [sentMessages], the serialized notification
    under the tag "TimeBasedIngestStatus"; it leaves none when the bound
    is reached first or when the registry is set to fail. *)
Theorem SendStatus_on_mock (n : statusNotification)
    (m : mockCustomCapabilityRegistry) (k : nat) :
  unregisterCalled m = false ->
  (k <= maxNotificationAttempts)%nat ->
  (forall i, (i < k)%nat -> askPending m i = true) ->
  ((k < maxNotificationAttempts)%nat -> askPending m k = false) ->
  let m' := fst (SendStatus statusName maxNotificationAttempts n m) in
  let evs := snd (SendStatus statusName maxNotificationAttempts n m) in
  sendMessageCalls m' =
    (sendMessageCalls m + Nat.min (S k) maxNotificationAttempts)%nat /\
  sentMessages m' =
    (sentMessages m ++
     if (k <? maxNotificationAttempts)%nat && negb (shouldFailSend m)
     then [{| messageType := "TimeBasedIngestStatus";
              message := statusLogs statusName n |}]
     else [])%list /\
  awaits evs = repeat (pendingChannel m) k.
Proof.
  intros Hun Hle Hpend Hlast. cbv zeta. unfold SendStatus.
  exact (sendAttempts_on_mock (statusLogs statusName n) k
           maxNotificationAttempts m Hun Hle Hpend Hlast).
Qed.

End SendStatusOnMock.

Module MockRuns.

Import Tests.

Definition twoMessages : list customMessage :=
  [{| messageType := statusMessageType; message := sentLogs |};
   {| messageType := "other"; message := [] |}].

Definition pendingOnce : mockCustomCapabilityRegistry :=
  withPending (fun tryCount => (tryCount <? 1)%nat).

Lemma mock_decides_call_by_call_witness :
  unregisterCalled pendingOnce = false /\
  fst (sendMessages twoMessages pendingOnce) = [MessagePending 7%nat; Delivered] /\
  pendingAsked (snd (sendMessages twoMessages pendingOnce)) = 2%nat.
Proof.
  assert (Hun : unregisterCalled pendingOnce = false) by reflexivity.
  split; [exact Hun|].
  exact (mock_decides_call_by_call twoMessages pendingOnce Hun).
Defined.

Lemma SendStatus_on_mock_witness :
  unregisterCalled pendingOnce = false /\
  (1 <= threeAttempts)%nat /\
  (forall i, (i < 1)%nat -> askPending pendingOnce i = true) /\
  ((1 < threeAttempts)%nat -> askPending pendingOnce 1 = false) /\
  sendMessageCalls (fst (SendStatus statusText threeAttempts toSend pendingOnce))
    = 2%nat /\
  sentMessages (fst (SendStatus statusText threeAttempts toSend pendingOnce))
    = [{| messageType := "TimeBasedIngestStatus"; message := sentLogs |}] /\
  awaits (snd (SendStatus statusText threeAttempts toSend pendingOnce)) = [7%nat].
Proof.
  assert (Hun : unregisterCalled pendingOnce = false) by reflexivity.
  assert (Hle : (1 <= threeAttempts)%nat) by (unfold threeAttempts; lia).
  assert (Hpend : forall i, (i < 1)%nat -> askPending pendingOnce i = true).
  { intros i Hi. assert (i = 0%nat) as -> by lia. reflexivity. }
  assert (Hlast : (1 < threeAttempts)%nat -> askPending pendingOnce 1 = false)
    by (intros _; reflexivity).
  split; [exact Hun|]. split; [exact Hle|]. split; [exact Hpend|].
  split; [exact Hlast|].
  exact (SendStatus_on_mock statusText threeAttempts toSend pendingOnce 1
           Hun Hle Hpend Hlast).
Defined.

End MockRuns.

End Notifier.

(* ===================================================================== *)
(** ** The clients of [s3intf.go] *)
(* ===================================================================== *)

Module S3Intf.

Definition error := string.

(** [aws.Endpoint], for the fields the resolver sets. *)
Record AwsEndpoint := {
  PartitionID : string;
  URL : string;
  SigningRegion : string
}.

(** An endpoint resolver: from a service and a region to an endpoint and an
    error. *)
Definition EndpointResolver := string -> string -> AwsEndpoint * option error.

(** The option functions for [config.LoadDefaultConfig] that the code
    uses. *)
Inductive LoadOption :=
| WithRegion (region : string)
| WithEndpointResolverWithOptions (resolver : EndpointResolver).

(** [s3.Options], for the field the code sets. *)
Record S3Options := { UsePathStyle : bool }.

(** A call that ends in [log.Fatalf] terminates the process with the
    message; otherwise the function returns. *)
Inductive Outcome (A : Type) :=
| Fatal (message : string)
| Returns (a : A).
Arguments Fatal {A} message.
Arguments Returns {A} a.

(** The regions and the resolvers among the options, in order. *)
Definition regionsOf (options : list LoadOption) : list string :=
  flat_map (fun o => match o with WithRegion region => [region] | _ => [] end)
           options.

Definition resolversOf (options : list LoadOption) : list EndpointResolver :=
  flat_map (fun o => match o with
                     | WithEndpointResolverWithOptions f => [f]
                     | _ => []
                     end) options.

(** The options of a list applied one after the other. *)
Definition applyOptions (funcs : list (S3Options -> S3Options)) (o : S3Options)
    : S3Options :=
  fold_left (fun o f => f o) funcs o.

Section SDK.

(** The SDK: [config.LoadDefaultConfig] and [s3.NewFromConfig], as given. *)
Variable AwsConfig : Type.
Variable Client : Type.
Variable LoadDefaultConfig : list LoadOption -> AwsConfig * option error.
Variable NewFromConfig : AwsConfig -> list (S3Options -> S3Options) -> Client.

Record s3ListObjectsAPIImpl := { client : Client }.

(** The resolver built for a custom endpoint. *)
Definition customResolver (cfg : S3Reader.S3DownloaderConfig) : EndpointResolver :=
  fun service region =>
    ({| PartitionID := "aws";
        URL := S3Reader.Endpoint cfg;
        SigningRegion := S3Reader.Region cfg |}, None).

(** [optionsFuncs], as it stands when [LoadDefaultConfig] is called. *)
Definition loadOptions (cfg : S3Reader.S3DownloaderConfig) : list LoadOption :=
  let optionsFuncs := [] in
  let optionsFuncs :=
    if negb (S3Reader.Region cfg =? "")%string
    then (optionsFuncs ++ [WithRegion (S3Reader.Region cfg)])%list
    else optionsFuncs in
  if negb (S3Reader.Endpoint cfg =? "")%string
  then (optionsFuncs ++ [WithEndpointResolverWithOptions (customResolver cfg)])%list
  else optionsFuncs.

(** [s3OptionFuncs], as it stands when [NewFromConfig] is called. *)
Definition s3OptionFuncs (cfg : S3Reader.S3DownloaderConfig)
    : list (S3Options -> S3Options) :=
  if S3Reader.S3ForcePathStyle cfg
  then ([] ++ [fun _ : S3Options => {| UsePathStyle := true |}])%list
  else [].

Definition newS3Client (cfg : S3Reader.S3DownloaderConfig)
    : Outcome (s3ListObjectsAPIImpl * Client * option error) :=
  let '(awsCfg, err) := LoadDefaultConfig (loadOptions cfg) in
  match err with
  | Some e => Fatal ("unable to load SDK config, " ++ e)
  | None =>
      let client := NewFromConfig awsCfg (s3OptionFuncs cfg) in
      Returns ({| client := client |}, client, None)
  end.

(** X12. [newS3Client] never returns an error. When the SDK configuration
    cannot be loaded the process is ended by [log.Fatalf] with the loader's
    error in the message; otherwise the function returns a nil error, and
    the lister and the getter it returns are the same S3 client, built from
    the loaded configuration. *)
Theorem newS3Client_never_returns_error cfg :
  match newS3Client cfg with
  | Fatal message =>
      exists e,
        snd (LoadDefaultConfig (loadOptions cfg)) = Some e /\
        message = "unable to load SDK config, " ++ e
  | Returns (lister, getter, err) =>
      err = None /\
      client lister = getter /\
      snd (LoadDefaultConfig (loadOptions cfg)) = None /\
      getter = NewFromConfig (fst (LoadDefaultConfig (loadOptions cfg)))
                 (s3OptionFuncs cfg)
  end.
Proof.
  unfold newS3Client.
  destruct (LoadDefaultConfig (loadOptions cfg)) as [awsCfg [e|]]; cbn.
  - now exists e.
  - repeat split.
Qed.

(** X13. The options follow the configuration field by field: a region
    option exactly when [Region] is not empty, a resolver exactly when
    [Endpoint] is not empty, the region first. The resolver answers every
    service and every region with the configured endpoint, partition "aws"
    and the configured region as signing region (the empty one if none is
    configured), and never fails. Whatever options the client starts from,
    path style is on after the S3 options exactly when [S3ForcePathStyle]
    is set or it was on before. *)
Theorem newS3Client_options cfg :
  regionsOf (loadOptions cfg) =
    (if (S3Reader.Region cfg =? "")%string then [] else [S3Reader.Region cfg]) /\
  (forall service region,
      map (fun f => f service region) (resolversOf (loadOptions cfg)) =
      if (S3Reader.Endpoint cfg =? "")%string then []
      else [({| PartitionID := "aws";
                URL := S3Reader.Endpoint cfg;
                SigningRegion := S3Reader.Region cfg |}, None)]) /\
  (S3Reader.Region cfg <> "" -> S3Reader.Endpoint cfg <> "" ->
   exists f, loadOptions cfg =
             [WithRegion (S3Reader.Region cfg); WithEndpointResolverWithOptions f]) /\
  (forall o,
      UsePathStyle (applyOptions (s3OptionFuncs cfg) o) =
      S3Reader.S3ForcePathStyle cfg || UsePathStyle o).
Proof.
  unfold loadOptions, s3OptionFuncs.
  split; [|split; [|split]].
  - destruct (S3Reader.Region cfg =? "")%string;
      destruct (S3Reader.Endpoint cfg =? "")%string; reflexivity.
  - intros service region.
    destruct (S3Reader.Region cfg =? "")%string;
      destruct (S3Reader.Endpoint cfg =? "")%string; reflexivity.
  - intros Hr He. apply String.eqb_neq in Hr, He. rewrite Hr, He.
    now exists (customResolver cfg).
  - intros o. now destruct (S3Reader.S3ForcePathStyle cfg).
Qed.

End SDK.

End S3Intf.
